(** * miff: feature spaces and weighted distances between their elements

    A shallow embedding of [miff.py].  The module is duck-typed numeric
    Python on top of numpy; the embedding keeps that shape:

    - arithmetic is written once against an interface [Numeric] and run at two
      carriers: IEEE binary64 ([float], what Python's [float] and numpy's
      [float64] compute) and the real numbers ([R], exact arithmetic);
    - a Python value is immutable (None, a number, a string) or a reference
      to a mutable ndarray; what a metric sees is the value with the array
      contents loaded;
    - a call either returns or raises: [result];
    - dicts are [gmap string _]; the feature registry is a list in
      registration order, held by a list object of the store. *)

From Stdlib Require Import Floats Reals Lra ZArith Permutation.
From stdpp Require Import gmap strings list.

Set Default Proof Using "Type".

(** ** Exceptions and results *)

Inductive exn : Type :=
| KeyError (key : string)   (* dict lookup of an absent key *)
| IndexError                (* sequence index out of range *)
| TypeError                 (* unsupported operand or wrong call arity *)
| ValueError                (* operands that cannot be broadcast together *)
| ZeroDivisionError         (* Python-level division by zero *)
| AttributeError.           (* attribute absent on the object *)

(** [LookupError] is the common base class of [KeyError] and [IndexError]. *)
Definition is_LookupError (e : exn) : bool :=
  match e with
  | KeyError _ | IndexError => true
  | _ => false
  end.

Inductive result (A : Type) : Type :=
| Ok (a : A)
| Raise (e : exn).
Arguments Ok {A} a.
Arguments Raise {A} e.

Definition bind {A B : Type} (r : result A) (k : A -> result B) : result B :=
  match r with
  | Ok a => k a
  | Raise e => Raise e
  end.

Definition result_map {A B : Type} (f : A -> B) (r : result A) : result B :=
  match r with
  | Ok a => Ok (f a)
  | Raise e => Raise e
  end.

Declare Scope py_scope.
Delimit Scope py_scope with py.
Notation "'let*' x ':=' r 'in' k" := (bind r (fun x => k))
  (at level 10, x name, r at level 100, k at level 200,
   format "'[v' 'let*'  x  ':='  r  'in' '/' k ']'") : py_scope.
Open Scope py_scope.

(** ** The arithmetic the module relies on *)

Class Numeric (T : Type) : Type := {
  num_zero : T;
  num_one : T;
  num_add : T -> T -> T;
  num_sub : T -> T -> T;
  num_mul : T -> T -> T;
  num_div : T -> T -> T;       (* numpy true division: never raises *)
  num_opp : T -> T;
  num_abs : T -> T;            (* np.abs *)
  num_sqrt : T -> T;           (* np.sqrt *)
  num_minimum : T -> T -> T;   (* np.minimum *)
  num_sum : list T -> T        (* np.sum over the elements of an array *)
}.

(** [np.exp].  Over the reals it is the exponential; on binary64 the function
    lives in libm and is a parameter, see [float_Exponential_with]. *)
Class Exponential (T : Type) : Type := { num_exp : T -> T }.

Declare Scope num_scope.
Delimit Scope num_scope with num.
Notation "x + y" := (num_add x y) : num_scope.
Notation "x - y" := (num_sub x y) : num_scope.
Notation "x * y" := (num_mul x y) : num_scope.
Notation "x / y" := (num_div x y) : num_scope.
Notation "- x" := (num_opp x) : num_scope.

(** binary64.  [np.minimum(x, y)] is [x] when [x < y] or [x] is NaN, else
    [y]; so a NaN on either side comes out. *)
Definition float_minimum (x y : float) : float :=
  if (PrimFloat.ltb x y || PrimFloat.is_nan x)%bool then x else y.

(** binary64 arithmetic around a given [np.sum]: numpy adds the elements of
    an array in an order of its own choosing. *)
Definition float_Numeric_with (array_sum : list float -> float)
  : Numeric float := {|
  num_zero := 0%float;
  num_one := 1%float;
  num_add := PrimFloat.add;
  num_sub := PrimFloat.sub;
  num_mul := PrimFloat.mul;
  num_div := PrimFloat.div;
  num_opp := PrimFloat.opp;
  num_abs := PrimFloat.abs;
  num_sqrt := PrimFloat.sqrt;
  num_minimum := float_minimum;
  num_sum := array_sum
|}.

(** The elements added in index order from 0.0, which is how numpy adds an
    array of fewer than eight elements (longer ones go through interleaved
    partial sums). *)
Definition float_seq_sum (xs : list float) : float :=
  fold_left PrimFloat.add xs 0%float.

#[export] Instance float_Numeric : Numeric float :=
  float_Numeric_with float_seq_sum.

(** Exact arithmetic.  Rocq's [sqrt] and [/] are total (the root of a
    negative number and a quotient by zero are 0, where numpy has NaN and the
    infinities): what is proved at this carrier speaks of the code only where
    the roots are taken of numbers that are not negative and the divisors
    are not zero. *)
#[export] Instance R_Numeric : Numeric R := {|
  num_zero := 0%R;
  num_one := 1%R;
  num_add := Rplus;
  num_sub := Rminus;
  num_mul := Rmult;
  num_div := Rdiv;
  num_opp := Ropp;
  num_abs := Rabs;
  num_sqrt := sqrt;
  num_minimum := Rmin;
  num_sum := fun xs => fold_left Rplus xs 0%R
|}.

#[export] Instance R_Exponential : Exponential R := {| num_exp := exp |}.


(** ** Values *)

(** A Python value; [A] is what stands for an ndarray: a store location in
    objects that hold references ([val loc]), the element list once loaded
    ([val (list T)]). *)
Inductive val (T A : Type) : Type :=
| VNone
| VNum (x : T)
| VStr (s : string)
| VArr (a : A).
Arguments VNone {T A}.
Arguments VNum {T A} x.
Arguments VStr {T A} s.
Arguments VArr {T A} a.

Definition loc : Type := positive.

(** ** numpy operations on loaded values *)

Section Numpy.
Context {T : Type} `{Numeric T}.

Abbreviation value := (val T (list T)).

(** Element-wise binary operator with numpy's broadcasting of scalars and
    of one-element arrays. *)
Definition broadcast (f : T -> T -> T) (a b : value) : result value :=
  match a, b with
  | VNum x, VNum y => Ok (VNum (f x y))
  | VNum x, VArr ys => Ok (VArr (map (f x) ys))
  | VArr xs, VNum y => Ok (VArr (map (fun x => f x y) xs))
  | VArr xs, VArr ys =>
      if Nat.eqb (length xs) (length ys) then
        Ok (VArr (map (fun p => f (fst p) (snd p)) (combine xs ys)))
      else match xs, ys with
           | [x], _ => Ok (VArr (map (f x) ys))
           | _, [y] => Ok (VArr (map (fun x => f x y) xs))
           | _, _ => Raise ValueError
           end
  | _, _ => Raise TypeError
  end.

(** A unary ufunc such as [np.abs]. *)
Definition ufunc (f : T -> T) (a : value) : result value :=
  match a with
  | VNum x => Ok (VNum (f x))
  | VArr xs => Ok (VArr (map f xs))
  | _ => Raise TypeError
  end.

(** Sum in index order, from zero. *)
Definition seq_sum (xs : list T) : T := fold_left num_add xs num_zero.

(** [np.sum]: a scalar is its own sum. *)
Definition np_sum (a : value) : result T :=
  match a with
  | VNum x => Ok x
  | VArr xs => Ok (num_sum xs)
  | _ => Raise TypeError
  end.

(** ** Metrics *)

Definition ManhattanDistance (a b : value) : result T :=
  let* diff := broadcast num_sub a b in
  let* absd := ufunc num_abs diff in
  np_sum absd.

(** [np.maximum] is the two-argument element-wise maximum; called with one
    argument it raises [TypeError] once that argument has been evaluated. *)
Definition np_maximum_1 (x : value) : result T := Raise TypeError.

Definition MaxAbsDistance (a b : value) : result T :=
  let* diff := broadcast num_sub a b in
  let* absd := ufunc num_abs diff in
  np_maximum_1 absd.

(** [a / np.sum(a)] *)
Definition normalize (a : value) : result value :=
  let* s := np_sum a in
  broadcast num_div a (VNum s).

Definition len (a : value) : result nat :=
  match a with
  | VArr xs => Ok (length xs)
  | VStr s => Ok (String.length s)
  | _ => Raise TypeError
  end.

(** [v[i]] for an index [0 <= i]. *)
Definition getitem (a : value) (i : nat) : result T :=
  match a with
  | VArr xs =>
      match xs !! i with
      | Some x => Ok x
      | None => Raise IndexError
      end
  | VNum _ => Raise IndexError   (* invalid index to scalar variable *)
  | _ => Raise TypeError
  end.

(** The body of [for i in range(len(aa))], run for [i = lo .. lo+n-1]. *)
Fixpoint Hellinger_loop (aa bb : value) (lo n : nat) (bc : T) : result T :=
  match n with
  | O => Ok bc
  | S n' =>
      let* ai := getitem aa lo in
      let* bi := getitem bb lo in
      Hellinger_loop aa bb (S lo) n' (bc + num_sqrt (ai * bi))%num
  end.

Definition HellingerDistance (a b : value) : result T :=
  let* aa := normalize a in
  let* bb := normalize b in
  let* n := len aa in
  let* bc := Hellinger_loop aa bb 0 n num_zero in
  Ok (num_sqrt (num_one - bc)%num).

(** The vector scaled by the inverse of its sum: aᵢ/Σa. *)
Definition normalized (a : list T) : list T :=
  map (fun x => (x / num_sum a)%num) a.

(** BC = Σ sqrt(aᵢ·bᵢ) over the two normalized vectors. *)
Definition Bhattacharyya (a b : list T) : T :=
  seq_sum (map (fun p => num_sqrt (fst p * snd p)%num)
             (combine (normalized a) (normalized b))).

(** ** Remaps *)

(** The arithmetic of the two remaps, with numpy's division, which always
    returns: what a call computes when [d] or [r] is a numpy scalar, as the
    [d] that [Difference] passes on from a numpy metric is.  On two Python
    floats the division can raise: see [LinearRemap_call]. *)
Definition LinearRemap (d r : T) : T := num_minimum (d / r)%num num_one.


End Numpy.

(** ** Feature registry entries and the weighted difference *)

Section Registry.
Context {T : Type} `{Numeric T}.

(** The dict built by [AddFeature]. *)
Record feature : Type := {
  name : string;
  proto : val T loc;
  metric : val T (list T) -> val T (list T) -> result T;
  remap : option (T -> T -> result T);  (* [None] is falsy, a function not *)
  range : T;
  weight : T
}.

(** A function that always returns: how [LinearRemap] and
    [ExponentialRemap] sit in the [remap] field. *)
Definition returning (f : T -> T -> T) : T -> T -> result T :=
  fun d r => Ok (f d r).

(** [d[key]] *)
Definition dict_getitem {V : Type} (d : gmap string V) (key : string)
  : result V :=
  match d !! key with
  | Some v => Ok v
  | None => Raise (KeyError key)
  end.

(** What the builtin [sum] returns: the int [0] it starts from, or a numpy
    float once an array element has been added to it. *)
Inductive pynum : Type :=
| PyZero
| NpFloat (x : T).

Definition py_add (acc : pynum) (x : T) : pynum :=
  match acc with
  | PyZero => NpFloat (num_zero + x)%num
  | NpFloat a => NpFloat (a + x)%num
  end.

Definition py_sum (xs : list T) : pynum := fold_left py_add xs PyZero.

(** [/]: between Python ints it raises on a zero divisor; as soon as one
    side is a numpy float it is numpy's division, which returns. *)
Definition truediv (a b : pynum) : result T :=
  match a, b with
  | PyZero, PyZero => Raise ZeroDivisionError
  | PyZero, NpFloat y => Ok (num_zero / y)%num
  | NpFloat x, PyZero => Ok (x / num_zero)%num
  | NpFloat x, NpFloat y => Ok (x / y)%num
  end.

(** [mm * ww] on two arrays of one length. *)
Definition np_mul (mm ww : list T) : list T := zip_with num_mul mm ww.

Definition apply_remap (ff : feature) (mm : T) : result T :=
  match remap ff with
  | Some f => f mm (range ff)
  | None => Ok mm
  end.

(** The [for ff in self.features] loop of [Difference], with the two lists
    it appends to. *)
Fixpoint Difference_loop (features : list feature)
    (aa bb : gmap string (val T (list T))) (metrics weights : list T)
  : result (list T * list T) :=
  match features with
  | [] => Ok (metrics, weights)
  | ff :: rest =>
      let featureName := name ff in
      let* aaVal := dict_getitem aa featureName in
      let* bbVal := dict_getitem bb featureName in
      let* mm := metric ff aaVal bbVal in
      let* mm := apply_remap ff mm in
      Difference_loop rest aa bb (metrics ++ [mm]) (weights ++ [weight ff])
  end.

Inductive difference : Type :=
| Scalar (dd : T)
| WithMetrics (dd : T) (metrics : list T).

Definition Difference (features : list feature)
    (aa bb : gmap string (val T (list T))) (get_metrics : bool)
  : result difference :=
  let* mw := Difference_loop features aa bb [] [] in
  let mm := fst mw in
  let ww := snd mw in
  let* dd := truediv (py_sum (np_mul mm ww)) (py_sum ww) in
  Ok (if get_metrics then WithMetrics dd mm else Scalar dd).

Definition aggregate (d : difference) : T :=
  match d with
  | Scalar dd => dd
  | WithMetrics dd _ => dd
  end.

(** The [for ff in self.features] loop of [Element], on the dict [e]. *)
Definition Element_loop (features : list feature)
    (e : gmap string (val T loc)) : gmap string (val T loc) :=
  fold_left (fun e ff => <[name ff := proto ff]> e) features e.

(** The normalized distance [m] of one registry entry: its metric on
    [a[name]] and [b[name]], through its remap with its range when a remap
    is configured, unmodified otherwise. *)
Definition per_feature (aa bb : gmap string (val T (list T)))
    (ff : feature) (m : T) : Prop :=
  exists va vb raw,
    aa !! name ff = Some va /\ bb !! name ff = Some vb /\
    metric ff va vb = Ok raw /\
    match remap ff with
    | Some f => f raw (range ff) = Ok m
    | None => m = raw
    end.

(** One turn of the loop, as a computation. *)
Definition entry (aa bb : gmap string (val T (list T))) (ff : feature)
  : result T :=
  let* aaVal := dict_getitem aa (name ff) in
  let* bbVal := dict_getitem bb (name ff) in
  let* mm := metric ff aaVal bbVal in
  apply_remap ff mm.

(** (Σ mᵢ·wᵢ) / (Σ wᵢ), both sums taken in registration order. *)
Definition weighted_mean (ms ws : list T) : T :=
  (seq_sum (np_mul ms ws) / seq_sum ws)%num.

End Registry.
Arguments feature T : clear implicits.
Arguments pynum T : clear implicits.
Arguments difference T : clear implicits.

(** ** Objects and the store *)

Section Store.
Context {T : Type} `{Numeric T}.

Inductive obj : Type :=
| Ndarray (xs : list T)
| Dict (d : gmap string (val T loc))
| PyList (fs : list (feature T))
| Instance (attrs : gmap string loc).   (* the instance's own __dict__ *)

Abbreviation store := (gmap loc obj).

(** A method: runs on the store, returns or raises. *)
Definition M (A : Type) : Type := store -> result (A * store).

Definition ret {A : Type} (a : A) : M A := fun h => Ok (a, h).

Definition bindM {A B : Type} (m : M A) (k : A -> M B) : M B :=
  fun h => let* r := m h in k (fst r) (snd r).

Definition alloc (o : obj) : M loc :=
  fun h => let l := fresh (dom h) in Ok (l, <[l := o]> h).

(** The list that the class statement binds to [FeatureSpace.features]. *)
Definition class_features : loc := 1%positive.

(** The store once the module has been imported. *)
Definition module_store : store := {[ class_features := PyList [] ]}.

(** [self.features]: the instance's own attribute, else the class's. *)
Definition getattr_features (self : loc) : M loc :=
  fun h =>
    match h !! self with
    | Some (Instance attrs) =>
        match attrs !! "features" with
        | Some l => Ok (l, h)
        | None => Ok (class_features, h)
        end
    | _ => Raise AttributeError
    end.

(** [self.features = l] *)
Definition setattr_features (self l : loc) : M unit :=
  fun h =>
    match h !! self with
    | Some (Instance attrs) =>
        Ok (tt, <[self := Instance (<["features" := l]> attrs)]> h)
    | _ => Raise AttributeError
    end.

Definition list_contents (l : loc) : M (list (feature T)) :=
  fun h =>
    match h !! l with
    | Some (PyList fs) => Ok (fs, h)
    | _ => Raise AttributeError
    end.

(** [l.append(f)] *)
Definition list_append (l : loc) (f : feature T) : M unit :=
  fun h =>
    match h !! l with
    | Some (PyList fs) => Ok (tt, <[l := PyList (fs ++ [f])]> h)
    | _ => Raise AttributeError
    end.

Definition dict_contents (l : loc) : M (gmap string (val T loc)) :=
  fun h =>
    match h !! l with
    | Some (Dict d) => Ok (d, h)
    | _ => Raise TypeError
    end.

(** [e[key] = v] on the dict object at [e]. *)
Definition dict_setitem (e : loc) (key : string) (v : val T loc) : M unit :=
  fun h =>
    match h !! e with
    | Some (Dict d) => Ok (tt, <[e := Dict (<[key := v]> d)]> h)
    | _ => Raise TypeError
    end.

(** [arr[i] = x] on the ndarray at [l], for an index [0 <= i]. *)
Definition ndarray_setitem (l : loc) (i : nat) (x : T) : M unit :=
  fun h =>
    match h !! l with
    | Some (Ndarray xs) =>
        if decide (i < length xs)%nat
        then Ok (tt, <[l := Ndarray (<[i := x]> xs)]> h)
        else Raise IndexError
    | _ => Raise TypeError
    end.

(** What a reference denotes in the store. *)
Definition load (h : store) (v : val T loc) : val T (list T) :=
  match v with
  | VNone => VNone
  | VNum x => VNum x
  | VStr s => VStr s
  | VArr l =>
      match h !! l with
      | Some (Ndarray xs) => VArr xs
      | _ => VNone
      end
  end.

(** ** class FeatureSpace *)

Definition __init__ (self : loc) : M unit :=
  bindM (alloc (PyList [])) (fun l => setattr_features self l).

(** [FeatureSpace()] *)
Definition FeatureSpace : M loc :=
  bindM (alloc (Instance ∅)) (fun self =>
  bindM (__init__ self) (fun _ => ret self)).

Definition AddFeature (self : loc) (name : string) (proto : val T loc)
    (metric : val T (list T) -> val T (list T) -> result T)
    (remap : option (T -> T -> result T)) (range weight : T) : M unit :=
  let f := {| name := name; proto := proto; metric := metric;
              remap := remap; range := range; weight := weight |} in
  bindM (getattr_features self) (fun l => list_append l f).

(** The defaults of [AddFeature]'s keyword arguments. *)
Definition AddFeature_defaults (self : loc) (name : string)
    (proto : val T loc) : M unit :=
  AddFeature self name proto ManhattanDistance None num_one num_one.

(** [e[ff['name']] = ff['proto']] for each entry in turn. *)
Fixpoint Element_fill (e : loc) (features : list (feature T)) : M unit :=
  match features with
  | [] => ret tt
  | ff :: rest =>
      bindM (dict_setitem e (name ff) (proto ff)) (fun _ =>
      Element_fill e rest)
  end.

Definition Element (self : loc) : M loc :=
  bindM (alloc (Dict ∅)) (fun e =>
  bindM (getattr_features self) (fun l =>
  bindM (list_contents l) (fun features =>
  bindM (Element_fill e features) (fun _ => ret e)))).

(** [self.Difference(aa, bb, get_metrics)] on two dict objects of the store
    ("each input is a dictionary"), whose values are loaded for the metrics. *)
Definition Difference_method (self aa bb : loc) (get_metrics : bool)
  : M (difference T) :=
  bindM (getattr_features self) (fun l =>
  bindM (list_contents l) (fun features =>
  bindM (dict_contents aa) (fun da =>
  bindM (dict_contents bb) (fun db =>
  fun h =>
    let* d := Difference features (load h <$> da) (load h <$> db)
                get_metrics in
    Ok (d, h))))).

(** The registry an instance sees. *)
Definition features_of (h : store) (self : loc) : option (list (feature T)) :=
  match bindM (getattr_features self) list_contents h with
  | Ok (fs, _) => Some fs
  | Raise _ => None
  end.

(** [features_of] spelled out: where the registry of [self] lives. *)
Definition registry_at (h : store) (self l : loc)
    (fs : list (feature T)) : Prop :=
  (exists attrs, h !! self = Some (Instance attrs) /\
                 l = default class_features (attrs !! "features")) /\
  h !! l = Some (PyList fs).

Definition is_Instance (o : obj) : Prop := exists attrs, o = Instance attrs.
Definition is_PyList (o : obj) : Prop := exists fs, o = PyList fs.

(** The entry registered last under the name [n]. *)
Fixpoint last_registered (n : string) (fs : list (feature T))
  : option (feature T) :=
  match fs with
  | [] => None
  | ff :: rest =>
      match last_registered n rest with
      | Some g => Some g
      | None => if decide (name ff = n) then Some ff else None
      end
  end.

(** [e[key][i]], read through the element dict at [e]. *)
Definition element_item (e : loc) (key : string) (i : nat) : M T :=
  bindM (dict_contents e) (fun d h =>
    let* v := dict_getitem d key in
    let* x := getitem (load h v) i in
    Ok (x, h)).

(** [e[key][i] = x], written through the element dict at [e]. *)
Definition element_item_set (e : loc) (key : string) (i : nat) (x : T)
  : M unit :=
  bindM (dict_contents e) (fun d h =>
    let* v := dict_getitem d key in
    match v with
    | VArr l => ndarray_setitem l i x h
    | _ => Raise TypeError
    end).

(** What a caller of the module can do to the store. *)
Inductive step : store -> store -> Prop :=
| step_FeatureSpace h s h' :
    FeatureSpace h = Ok (s, h') -> step h h'
| step_AddFeature h self n p m r rg w h' :
    AddFeature self n p m r rg w h = Ok (tt, h') -> step h h'
| step_Element h self e h' :
    Element self h = Ok (e, h') -> step h h'
| step_ndarray h xs l h' :
    alloc (Ndarray xs) h = Ok (l, h') -> step h h'
| step_dict h d l h' :
    alloc (Dict d) h = Ok (l, h') -> step h h'
| step_dict_setitem h e key v h' :
    dict_setitem e key v h = Ok (tt, h') -> step h h'
| step_ndarray_setitem h l i x h' :
    ndarray_setitem l i x h = Ok (tt, h') -> step h h'.

(** The stores a program reaches from the imported module. *)
Inductive reachable : store -> Prop :=
| reachable_module : reachable module_store
| reachable_step h h' : reachable h -> step h h' -> reachable h'.

(** Every instance has a [features] attribute of its own, bound to a list
    that is neither the class's nor another instance's. *)
Record registries_separate (h : store) : Prop := {
  class_list : exists cfs, h !! class_features = Some (PyList cfs);
  own_list : forall s attrs, h !! s = Some (Instance attrs) ->
    exists l fs, attrs !! "features" = Some l /\ l <> class_features /\
                 h !! l = Some (PyList fs);
  lists_distinct : forall s1 s2 a1 a2 l,
    h !! s1 = Some (Instance a1) -> h !! s2 = Some (Instance a2) ->
    a1 !! "features" = Some l -> a2 !! "features" = Some l -> s1 = s2
}.

End Store.
Arguments obj T : clear implicits.

Notation "'let!' x ':=' m 'in' k" := (bindM m (fun x => k))
  (at level 10, x name, m at level 100, k at level 200,
   format "'[v' 'let!'  x  ':='  m  'in' '/' k ']'") : py_scope.

(** ** binary64 observations *)

Definition nan_or_inf (x : float) : bool := is_nan x || is_infinity x.

(** What the claim describes, on binary64: sqrt(max(0, 1 − BC)). *)
Definition Hellinger_clamped (a b : list float) : float :=
  let x := PrimFloat.sub 1 (Bhattacharyya a b) in
  PrimFloat.sqrt (if PrimFloat.ltb 0 x then x else 0%float).

(** ** Example spaces over binary64 *)

Module Examples.
Open Scope float_scope.

Abbreviation element := (gmap string (val float (list float))).

Definition entry_of (n : string) (m : val float (list float) -> _ -> _)
    (r : option (float -> float -> result float)) (rg w : float)
  : feature float :=
  {| name := n; proto := VNone; metric := m; remap := r;
     range := rg; weight := w |}.

(** Two linearly remapped features of weight 1. *)
Definition census : list (feature float) :=
  [ entry_of "age" ManhattanDistance (Some (returning LinearRemap)) 100 1;
    entry_of "income" ManhattanDistance (Some (returning LinearRemap))
      100000 1 ].
Definition alice : element :=
  {[ "age" := VNum 30; "income" := VNum 40000 ]}.
Definition bob : element :=
  {[ "age" := VNum 80; "income" := VNum 65000 ]}.

(** One feature whose weight is 0. *)
Definition weightless : list (feature float) :=
  [ entry_of "age" ManhattanDistance None 1 0 ].

(** A categorical feature left on the default metric, then a numeric one. *)
Definition town_age : list (feature float) :=
  [ entry_of "town" ManhattanDistance None 1 1;
    entry_of "age" ManhattanDistance None 1 1 ].
Definition in_X : element := {[ "town" := VStr "X" ]}.
Definition in_Y : element := {[ "town" := VStr "Y" ]}.

(** A histogram feature compared by Hellinger distance. *)
Definition histogram : list (feature float) :=
  [ entry_of "hist" HellingerDistance None 1 1 ].
Definition three_bins : element := {[ "hist" := VArr [1; 2; 3] ]}.
Definition two_bins : element := {[ "hist" := VArr [1; 2] ]}.

(** The name "age" registered twice, with prototypes 1 and 2, and a store
    in which the instance at 2 holds that registry in the list at 3. *)
Definition age_first : feature float :=
  {| name := "age"; proto := VNum 1; metric := ManhattanDistance;
     remap := None; range := 1; weight := 1 |}.
Definition age_second : feature float :=
  {| name := "age"; proto := VNum 2; metric := ManhattanDistance;
     remap := None; range := 1; weight := 3 |}.
Definition age_twice_store : gmap loc (obj float) :=
  <[2%positive := Instance {[ "features" := 3%positive ]}]>
    (<[3%positive := PyList [age_first; age_second]]> module_store).

(** The instance at 2 with the single entry "age" in the list at 3. *)
Definition age_store : gmap loc (obj float) :=
  <[2%positive := Instance {[ "features" := 3%positive ]}]>
    (<[3%positive := PyList [entry_of "age" ManhattanDistance None 1 1]]>
       module_store).

End Examples.

(** ** Spaces registered in two orders *)

Module OrderExamples.
Open Scope float_scope.

(** Three features of weight 1, remapped linearly over a range of 10, in
    two registration orders. *)
Definition tenth (n : string) : feature float :=
  Examples.entry_of n ManhattanDistance (Some (returning LinearRemap)) 10 1.
Definition xyz : list (feature float) := [tenth "x"; tenth "y"; tenth "z"].
Definition zyx : list (feature float) := [tenth "z"; tenth "y"; tenth "x"].
Definition p123 : Examples.element :=
  {[ "x" := VNum 1; "y" := VNum 2; "z" := VNum 3 ]}.
Definition origin : Examples.element :=
  {[ "x" := VNum 0; "y" := VNum 0; "z" := VNum 0 ]}.

(** 1/10, 2/10 and 3/10, as binary64 has them. *)
Definition tenths : list float := [1 / 10; 2 / 10; 3 / 10].

(** Two features over the reals, weights 1 and 2, in both orders. *)
Definition real_entry (n : string) (w : R) : feature R :=
  {| name := n; proto := VNone; metric := ManhattanDistance; remap := None;
     range := 1%R; weight := w |}.
Definition uv : list (feature R) := [real_entry "u" 1; real_entry "v" 2].
Definition vu : list (feature R) := [real_entry "v" 2; real_entry "u" 1].
Definition here : gmap string (val R (list R)) :=
  {[ "u" := VNum 1%R; "v" := VNum 5%R ]}.
Definition there : gmap string (val R (list R)) :=
  {[ "u" := VNum 4%R; "v" := VNum 3%R ]}.

End OrderExamples.

(** ** Programs on the store *)

(** Two blank elements of one space over a vector prototype; the first is
    then written to in place.  Returns what the second holds before and after
    the write. *)
Definition sharing_demo : M (float * float) :=
  let! p := alloc (Ndarray [0%float; 0%float]) in
  let! s := FeatureSpace in
  let! _u := AddFeature_defaults s "v" (VArr p) in
  let! e1 := Element s in
  let! e2 := Element s in
  let! before := element_item e2 "v" 0 in
  let! _w := element_item_set e1 "v" 0 9%float in
  let! after := element_item e2 "v" 0 in
  ret (before, after).

(** The store after [s1 = FeatureSpace(); s2 = FeatureSpace()]. *)
Definition two_spaces : gmap loc (obj float) :=
  match (let! _s1 := FeatureSpace in FeatureSpace) module_store with
  | Ok r => snd r
  | Raise _ => module_store
  end.

(** ** The other metrics *)

Section MoreMetrics.
Context {T : Type} `{Numeric T}.

(** [x**2]: numpy squares by multiplying [x] with itself. *)
Definition square (x : T) : T := (x * x)%num.

Definition EuclideanDistance (a b : val T (list T)) : result T :=
  let* diff := broadcast num_sub a b in
  let* sq := ufunc square diff in
  let* s := np_sum sq in
  Ok (num_sqrt s).

End MoreMetrics.

(** [np.dot] of two one-dimensional arrays of one length: the sum of the
    products.  BLAS adds them in an order of its own, so binary64 has no
    instance. *)
Class Dot (T : Type) : Type := { num_dot : list T -> list T -> T }.

#[export] Instance R_Dot : Dot R := {|
  num_dot := fun xs ys => fold_left Rplus (zip_with Rmult xs ys) 0%R
|}.

Section Cosine.
Context {T : Type} `{Numeric T} `{Dot T}.

(** [np.dot(a, b)] on two one-dimensional arrays: the lengths must agree. *)
Definition np_dot (a b : list T) : result T :=
  if Nat.eqb (length a) (length b) then Ok (num_dot a b)
  else Raise ValueError.

(** [np.linalg.norm(a)]: the square root of [a.dot(a)]. *)
Definition np_linalg_norm (a : list T) : T := num_sqrt (num_dot a a).

(** [CosineDistance] on two one-dimensional float arrays. *)
Definition CosineDistance (a b : list T) : result T :=
  let* ab := np_dot a b in
  Ok (num_one - ab / np_linalg_norm a / np_linalg_norm b)%num.

End Cosine.

(** ** DiscreteDistance, on values that are no arrays *)

(** A value that is None, a float or a string. *)
Abbreviation scalar := (val float Empty_set).

(** [a == b]: numbers compare as binary64 (NaN differs from itself, the two
    zeros are equal), strings by their characters, None equals None, and
    values of two kinds differ. *)
Definition py_eq (a b : scalar) : bool :=
  match a, b with
  | VNone, VNone => true
  | VNum x, VNum y => PrimFloat.eqb x y
  | VStr s, VStr t => String.eqb s t
  | _, _ => false
  end.

Definition DiscreteDistance (a b : scalar) : float :=
  if py_eq a b then 0%float else 1%float.

(** ** What the properties below speak of *)

Section PropertyDefs.
Context {T : Type} `{Numeric T}.

(** The two elements hold the same values under every registered name. *)
Definition agree_on (fs : list (feature T))
    (aa aa' : gmap string (val T (list T))) : Prop :=
  forall ff, In ff fs -> aa' !! name ff = aa !! name ff.

(** The metric of an entry does not depend on the order of its arguments,
    neither in what it returns nor in what it raises. *)
Definition symmetric_metric (ff : feature T) : Prop :=
  forall va vb, metric ff va vb = metric ff vb va.

(** A number or an array of numbers. *)
Definition is_numeric (v : val T (list T)) : Prop :=
  match v with
  | VNum _ | VArr _ => True
  | _ => False
  end.

(** [self.AddFeature(...)] with the fields of [f]. *)
Definition AddFeature_entry (self : loc) (f : feature T) : M unit :=
  AddFeature self (name f) (proto f) (metric f) (remap f) (range f)
    (weight f).

(** A caller registering the entries of [fs] in turn. *)
Fixpoint AddFeatures (self : loc) (fs : list (feature T)) : M unit :=
  match fs with
  | [] => ret tt
  | f :: rest => bindM (AddFeature_entry self f) (fun _ =>
                 AddFeatures self rest)
  end.


End PropertyDefs.

(** Σ |aᵢ − bᵢ| and sqrt(Σ (aᵢ − bᵢ)²) over the reals. *)
Definition l1_distance (xs ys : list R) : R :=
  fold_left Rplus (map (fun p => Rabs (fst p - snd p)) (combine xs ys)) 0%R.

Definition l2_distance (xs ys : list R) : R :=
  sqrt (fold_left Rplus
          (map (fun p => ((fst p - snd p) * (fst p - snd p))%R)
             (combine xs ys)) 0%R).

(** The registry with every weight multiplied by [c]. *)
Definition scale_weights (c : R) (fs : list (feature R)) : list (feature R) :=
  map (fun ff => {| name := name ff; proto := proto ff; metric := metric ff;
                    remap := remap ff; range := range ff;
                    weight := (c * weight ff)%R |}) fs.

(** ** The weighted average, in the words of its specification *)

Section SpecAverage.
Context {T : Type} `{Numeric T}.

(** (Σ wᵢ·mᵢ) / (Σ wᵢ): each weight times its metric, added up from zero in
    registration order, over the weights added up in the same way. *)
Definition spec_weighted_average (ws ms : list T) : T :=
  (fold_left (fun acc wm => acc + fst wm * snd wm) (combine ws ms) num_zero
   / fold_left (fun acc w => acc + w) ws num_zero)%num.

End SpecAverage.

(** ** The remaps as they are called on binary64 numbers *)

(** What a number is when it reaches a remap: a Python [float], or a numpy
    scalar such as the numpy metrics return. *)
Inductive number_kind : Type :=
| PyFloat
| NpFloat64.

(** [d / r].  Between two Python floats a divisor that is zero, of either
    sign, raises; as soon as one side is a numpy scalar the division is
    numpy's, which returns an infinity or NaN there. *)
Definition scalar_truediv (kd kr : number_kind) (d r : float)
  : result float :=
  match kd, kr with
  | PyFloat, PyFloat =>
      if PrimFloat.eqb r 0 then Raise ZeroDivisionError
      else Ok (PrimFloat.div d r)
  | _, _ => Ok (PrimFloat.div d r)
  end.

(** [LinearRemap(d, r)] *)
Definition LinearRemap_call (kd kr : number_kind) (d r : float)
  : result float :=
  let* q := scalar_truediv kd kr d r in
  Ok (float_minimum q 1).


(** ** More example spaces over binary64 *)

Module WeightExamples.
Open Scope float_scope.

(** The two features of the census, the second three times as heavy. *)
Definition weighted_census : list (feature float) :=
  [ Examples.entry_of "age" ManhattanDistance
      (Some (returning LinearRemap)) 100 1;
    Examples.entry_of "income" ManhattanDistance
      (Some (returning LinearRemap)) 100000 3 ].

(** Three features of weights 1, 1 and -1, in two registration orders, and
    an element far from the origin under two of the names. *)
Definition signed (n : string) (w : float) : feature float :=
  Examples.entry_of n ManhattanDistance None 1 w.
Definition xyz : list (feature float) :=
  [signed "x" 1; signed "y" 1; signed "z" (-1)].
Definition xzy : list (feature float) :=
  [signed "x" 1; signed "z" (-1); signed "y" 1].
Definition far : Examples.element :=
  {[ "x" := VNum 1e16; "y" := VNum 1; "z" := VNum 1e16 ]}.


End WeightExamples.

(** * Properties *)

(** ** The loop of [Difference] *)

Section DifferenceFacts.
Context {T : Type} `{Numeric T}.

Implicit Types (ff : feature T) (aa bb : gmap string (val T (list T))).

Lemma Difference_loop_cons ff rest aa bb ms ws :
  Difference_loop (ff :: rest) aa bb ms ws =
  let* m := entry aa bb ff in
  Difference_loop rest aa bb (ms ++ [m]) (ws ++ [weight ff]).
Proof.
  unfold entry; simpl.
  destruct (dict_getitem aa (name ff)); simpl; [|reflexivity].
  destruct (dict_getitem bb (name ff)); simpl; [|reflexivity].
  destruct (metric ff a a0); simpl; reflexivity.
Qed.

Lemma entry_Ok aa bb ff m : entry aa bb ff = Ok m <-> per_feature aa bb ff m.
Proof.
  unfold entry, per_feature, dict_getitem, apply_remap. split.
  - destruct (aa !! name ff) as [va|]; simpl; [|discriminate].
    destruct (bb !! name ff) as [vb|]; simpl; [|discriminate].
    destruct (metric ff va vb) as [raw|] eqn:Hm; simpl; [|discriminate].
    intros Hr. exists va, vb, raw. repeat split; try assumption.
    destruct (remap ff); [assumption | congruence].
  - intros (va & vb & raw & -> & -> & Hm & Hr); simpl.
    rewrite Hm; simpl. destruct (remap ff); congruence.
Qed.

(** A missing key is the only way a turn raises on its own account. *)
Lemma entry_Raise aa bb ff e :
  entry aa bb ff = Raise e ->
  (e = KeyError (name ff) /\
     (aa !! name ff = None \/ bb !! name ff = None)) \/
  (exists va vb, aa !! name ff = Some va /\ bb !! name ff = Some vb /\
     (let* mm := metric ff va vb in apply_remap ff mm) = Raise e).
Proof.
  unfold entry, dict_getitem.
  destruct (aa !! name ff) as [va|]; simpl.
  - destruct (bb !! name ff) as [vb|]; simpl.
    + intros He. right. exists va, vb. auto.
    + intros [= <-]. left. auto.
  - intros [= <-]. left. auto.
Qed.

Lemma entry_missing aa bb ff :
  aa !! name ff = None \/ bb !! name ff = None ->
  entry aa bb ff = Raise (KeyError (name ff)).
Proof.
  unfold entry, dict_getitem. intros [-> | Hb]; simpl; [reflexivity|].
  destruct (aa !! name ff); simpl; [rewrite Hb|]; reflexivity.
Qed.

(** The loop returns exactly when every entry evaluates; it then has
    appended one metric and one weight per entry, in order. *)
Lemma Difference_loop_Ok fs aa bb ms ws ms' ws' :
  Difference_loop fs aa bb ms ws = Ok (ms', ws') <->
  exists ms1, Forall2 (per_feature aa bb) fs ms1 /\
              ms' = ms ++ ms1 /\ ws' = ws ++ map weight fs.
Proof.
  revert ms ws. induction fs as [|ff rest IH]; intros ms ws.
  - simpl. split.
    + intros [= <- <-]. exists []. rewrite !app_nil_r. auto.
    + intros (ms1 & HF & -> & ->). inversion HF; subst.
      rewrite !app_nil_r. reflexivity.
  - rewrite Difference_loop_cons. split.
    + destruct (entry aa bb ff) as [m|] eqn:He; simpl; [|discriminate].
      intros Hl. apply IH in Hl as (ms1 & HF & -> & ->).
      exists (m :: ms1). rewrite <- !app_assoc. simpl.
      split; [|auto]. constructor; [apply entry_Ok, He | exact HF].
    + intros (ms1 & HF & -> & ->). inversion HF as [|? m ? ms2 Hm HF']; subst.
      apply entry_Ok in Hm. rewrite Hm; simpl. apply IH.
      exists ms2. rewrite <- !app_assoc. auto.
Qed.

(** The loop raises what the first entry that does not evaluate raises. *)
Lemma Difference_loop_Raise fs aa bb ms ws e :
  Difference_loop fs aa bb ms ws = Raise e <->
  exists fs1 ff fs2 ms1,
    fs = fs1 ++ ff :: fs2 /\ Forall2 (per_feature aa bb) fs1 ms1 /\
    entry aa bb ff = Raise e.
Proof.
  revert ms ws. induction fs as [|ff rest IH]; intros ms ws.
  - simpl. split; [discriminate|].
    intros (fs1 & ff & fs2 & ms1 & Hfs & _). destruct fs1; discriminate.
  - rewrite Difference_loop_cons. split.
    + destruct (entry aa bb ff) as [m|] eqn:He; simpl.
      * intros Hl. apply IH in Hl as (fs1 & f & fs2 & ms1 & -> & HF & Hf).
        exists (ff :: fs1), f, fs2, (m :: ms1). split; [reflexivity|].
        split; [|exact Hf]. constructor; [apply entry_Ok, He | exact HF].
      * intros [= <-]. exists [], ff, rest, []. auto.
    + intros (fs1 & f & fs2 & ms1 & Hfs & HF & Hf).
      destruct fs1 as [|f1 fs1]; simpl in Hfs; injection Hfs as <- ->.
      * rewrite Hf. reflexivity.
      * inversion HF as [|? m ? ms2 Hm HF']; subst.
        apply entry_Ok in Hm. rewrite Hm; simpl. apply IH.
        exists fs1, f, fs2, ms2. auto.
Qed.

Lemma Forall2_In_l {A B : Type} (P : A -> B -> Prop) (l : list A)
    (k : list B) (x : A) :
  Forall2 P l k -> In x l -> exists y, P x y.
Proof.
  induction 1 as [|a b l k Hab _ IH]; simpl; [tauto|].
  intros [<- | Hin]; eauto.
Qed.

(** The builtin [sum] of a non-empty array is the sum in index order. *)
Lemma py_sum_cons x xs : py_sum (x :: xs) = NpFloat (seq_sum (x :: xs)).
Proof.
  unfold py_sum, seq_sum. simpl. generalize (num_zero + x)%num.
  induction xs as [|y ys IH]; intros acc; simpl; [reflexivity | apply IH].
Qed.

Lemma py_sum_nonempty xs : xs <> [] -> py_sum xs = NpFloat (seq_sum xs).
Proof. destruct xs; [congruence | intros _; apply py_sum_cons]. Qed.

Lemma np_mul_nonempty (ms ws : list T) :
  length ms = length ws -> ws <> [] -> np_mul ms ws <> [].
Proof. destruct ms, ws; simpl; congruence. Qed.

(** On a non-empty registry whose entries evaluate, the division is
    numpy's and the result is the weighted mean. *)
Lemma Difference_nonempty fs aa bb ms get_metrics :
  fs <> [] -> Forall2 (per_feature aa bb) fs ms ->
  Difference fs aa bb get_metrics =
  Ok (let dd := weighted_mean ms (map weight fs) in
      if get_metrics then WithMetrics dd ms else Scalar dd).
Proof.
  intros Hne HF. unfold Difference.
  assert (Hl : Difference_loop fs aa bb [] [] = Ok (ms, map weight fs)).
  { apply Difference_loop_Ok. exists ms. auto. }
  rewrite Hl; simpl.
  assert (Hw : map weight fs <> []) by (destruct fs; simpl; congruence).
  assert (Hlen : length ms = length (map weight fs)).
  { rewrite length_map. symmetry. eapply Forall2_length, HF. }
  rewrite (py_sum_nonempty (map weight fs) Hw).
  rewrite (py_sum_nonempty _ (np_mul_nonempty _ _ Hlen Hw)).
  reflexivity.
Qed.

Lemma Difference_empty aa bb get_metrics :
  Difference (T:=T) [] aa bb get_metrics = Raise ZeroDivisionError.
Proof. reflexivity. Qed.

(** [Difference] returns exactly when its loop does, on a non-empty
    registry. *)
Lemma Difference_Ok_inv fs aa bb get_metrics d :
  Difference fs aa bb get_metrics = Ok d ->
  fs <> [] /\ exists ms, Forall2 (per_feature aa bb) fs ms /\
    d = (let dd := weighted_mean ms (map weight fs) in
         if get_metrics then WithMetrics dd ms else Scalar dd).
Proof.
  intros Hd. destruct fs as [|ff rest]; [discriminate|].
  split; [discriminate|].
  destruct (Difference_loop (ff :: rest) aa bb [] []) as [[ms ws]|e] eqn:Hl.
  - apply Difference_loop_Ok in Hl as (ms1 & HF & -> & ->). simpl in HF.
    exists ms1. split; [exact HF|].
    rewrite (Difference_nonempty _ _ _ ms1) in Hd by (auto; discriminate).
    congruence.
  - unfold Difference in Hd. rewrite Hl in Hd. discriminate.
Qed.

Lemma Difference_Raise_inv fs aa bb get_metrics e :
  fs <> [] -> Difference fs aa bb get_metrics = Raise e ->
  Difference_loop fs aa bb [] [] = Raise e.
Proof.
  intros Hne Hd.
  destruct (Difference_loop fs aa bb [] []) as [[ms ws]|e'] eqn:Hl.
  - apply Difference_loop_Ok in Hl as (ms1 & HF & -> & ->).
    rewrite (Difference_nonempty _ _ _ ms1) in Hd by auto. discriminate.
  - unfold Difference in Hd. rewrite Hl in Hd. simpl in Hd. congruence.
Qed.

End DifferenceFacts.

(** ** C1: the weighted average *)

(** binary64 multiplication does not depend on the order of its factors. *)
Lemma float_mul_comm (x y : float) : PrimFloat.mul x y = PrimFloat.mul y x.
Proof.
  apply Prim2SF_inj. rewrite !FloatAxioms.mul_spec. unfold SF64mul, SFmul.
  destruct (Prim2SF x) as [sx|sx| |sx mx ex],
           (Prim2SF y) as [sy|sy| |sy my ey];
    try reflexivity; try (rewrite (xorb_comm sx sy); reflexivity).
  rewrite (xorb_comm sx sy), (Pos.mul_comm mx my), (Z.add_comm ex ey).
  reflexivity.
Qed.

Section SpecAverageFacts.
Context {T : Type} `{Numeric T}.

(** The sum of the array [mm * ww] is the sum of the products, taken one
    feature after the other. *)
Lemma fold_np_mul (ms ws : list T) (acc : T) :
  (forall x y : T, x * y = y * x)%num ->
  fold_left num_add (np_mul ms ws) acc =
  fold_left (fun acc wm => acc + fst wm * snd wm)%num (combine ws ms) acc.
Proof.
  intros Hcomm. revert ws acc.
  induction ms as [|m ms IH]; intros [|w ws] acc; simpl; try reflexivity.
  rewrite (Hcomm m w). apply IH.
Qed.

(** What the code computes is the weighted average of the specification. *)
Lemma weighted_mean_spec (ms ws : list T) :
  (forall x y : T, x * y = y * x)%num ->
  weighted_mean ms ws = spec_weighted_average ws ms.
Proof.
  intros Hcomm. unfold weighted_mean, spec_weighted_average, seq_sum.
  rewrite (fold_np_mul ms ws num_zero Hcomm). reflexivity.
Qed.

End SpecAverageFacts.

(** C1.  In an arithmetic whose multiplication is commutative, as that of
    binary64 and of the reals is: on a registry of at least one entry, with
    elements that hold every registered name and metrics [m1..mn] as
    [per_feature] describes them, [Difference] returns (Σ wi·mi)/(Σ wi), the
    sums taken from zero in registration order; with [get_metrics] it returns
    the list [m1..mn] beside it. *)
Theorem Difference_weighted_average {T : Type} `{Numeric T}
    (fs : list (feature T)) (aa bb : gmap string (val T (list T)))
    (ms : list T) :
  (forall x y : T, x * y = y * x)%num ->
  fs <> [] ->
  Forall2 (per_feature aa bb) fs ms ->
  Difference fs aa bb false =
    Ok (Scalar (spec_weighted_average (map weight fs) ms)) /\
  Difference fs aa bb true =
    Ok (WithMetrics (spec_weighted_average (map weight fs) ms) ms).
Proof.
  intros Hcomm Hne HF.
  rewrite <- (weighted_mean_spec ms (map weight fs) Hcomm). split.
  - apply (Difference_nonempty fs aa bb ms false Hne HF).
  - apply (Difference_nonempty fs aa bb ms true Hne HF).
Qed.

Lemma Difference_weighted_average_witness :
  spec_weighted_average [1%float; 3%float] [0.5%float; 0.25%float]
    = 0.3125%float /\
  Difference WeightExamples.weighted_census Examples.alice Examples.bob false
    = Ok (Scalar (spec_weighted_average [1%float; 3%float]
                    [0.5%float; 0.25%float])) /\
  Difference WeightExamples.weighted_census Examples.alice Examples.bob true
    = Ok (WithMetrics (spec_weighted_average [1%float; 3%float]
                         [0.5%float; 0.25%float])
            [0.5%float; 0.25%float]).
Proof.
  split; [vm_compute; reflexivity|].
  apply (Difference_weighted_average WeightExamples.weighted_census
           Examples.alice Examples.bob [0.5%float; 0.25%float]).
  - exact float_mul_comm.
  - discriminate.
  - repeat constructor; apply entry_Ok; vm_compute; reflexivity.
Defined.

(** ** C4: missing feature names *)

(** C4, as the code has it.  On a non-empty registry: the first entry, in
    registration order, whose name one of the elements lacks makes
    [Difference] raise [KeyError] for that name, provided the entries before
    it evaluate; an element that lacks a registered name always makes
    [Difference] raise; and when both elements hold every registered name,
    whatever [Difference] raises was raised by the metric or the remap of
    one of the entries. *)
Theorem Difference_lookup_errors {T : Type} `{Numeric T}
    (fs : list (feature T)) (aa bb : gmap string (val T (list T)))
    (get_metrics : bool) :
  fs <> [] ->
  (forall fs1 ff fs2 ms,
     fs = fs1 ++ ff :: fs2 -> Forall2 (per_feature aa bb) fs1 ms ->
     aa !! name ff = None \/ bb !! name ff = None ->
     Difference fs aa bb get_metrics = Raise (KeyError (name ff))) /\
  (forall ff, In ff fs -> aa !! name ff = None \/ bb !! name ff = None ->
     exists e, Difference fs aa bb get_metrics = Raise e) /\
  ((forall ff, In ff fs ->
      is_Some (aa !! name ff) /\ is_Some (bb !! name ff)) ->
   forall e, Difference fs aa bb get_metrics = Raise e ->
     exists ff va vb,
       In ff fs /\ aa !! name ff = Some va /\ bb !! name ff = Some vb /\
       (let* mm := metric ff va vb in apply_remap ff mm) = Raise e).
Proof.
  intros Hne. split; [|split].
  - intros fs1 ff fs2 ms Hfs HF Hmiss.
    assert (Hl : Difference_loop fs aa bb [] [] = Raise (KeyError (name ff))).
    { apply Difference_loop_Raise. exists fs1, ff, fs2, ms.
      auto using entry_missing. }
    unfold Difference. rewrite Hl. reflexivity.
  - intros ff Hin Hmiss.
    destruct (Difference fs aa bb get_metrics) as [d|e] eqn:Hd; [|eauto].
    apply Difference_Ok_inv in Hd as (_ & ms & HF & _).
    destruct (Forall2_In_l _ _ _ _ HF Hin) as (m & va & vb & raw & Ha & Hb & _).
    destruct Hmiss; congruence.
  - intros Hall e Hd. apply Difference_Raise_inv in Hd; [|exact Hne].
    apply Difference_loop_Raise in Hd as (fs1 & ff & fs2 & ms1 & -> & _ & He).
    assert (Hin : In ff (fs1 ++ ff :: fs2)) by (apply in_elt).
    apply entry_Raise in He as [(_ & Hmiss) | (va & vb & Ha & Hb & Hr)].
    + destruct (Hall ff Hin) as [[? Ha] [? Hb]]. destruct Hmiss; congruence.
    + exists ff, va, vb. auto.
Qed.

Lemma Difference_lookup_errors_witness :
  Difference Examples.census Examples.alice {[ "age" := VNum 80%float ]} false
    = Raise (KeyError "income") /\
  (exists e, Difference Examples.census Examples.alice
               {[ "age" := VNum 80%float ]} false = Raise e).
Proof.
  destruct (Difference_lookup_errors Examples.census Examples.alice
              {[ "age" := VNum 80%float ]} false) as (Hfirst & Hsome & _).
  - discriminate.
  - split.
    + apply (Hfirst [Examples.entry_of "age" ManhattanDistance
                       (Some (returning LinearRemap)) 100%float 1%float]
                    (Examples.entry_of "income" ManhattanDistance
                       (Some (returning LinearRemap)) 100000%float 1%float)
                    [] [0.5%float]).
      * reflexivity.
      * repeat constructor; apply entry_Ok; vm_compute; reflexivity.
      * right. vm_compute. reflexivity.
    + apply (Hsome (Examples.entry_of "income" ManhattanDistance
                      (Some (returning LinearRemap)) 100000%float 1%float)).
      * simpl. auto.
      * right. vm_compute. reflexivity.
Defined.

(** C4 as stated fails twice.  Both elements lack "age", yet the exception is
    the [TypeError] of the entry registered before it, which is no
    [LookupError]; and two elements that hold every registered name still
    get a [LookupError], the [IndexError] of [bb[i]] in [HellingerDistance]
    on a shorter second vector. *)
Lemma Difference_lookup_errors_counterexample :
  (Examples.in_X !! "age" = None /\ Examples.in_Y !! "age" = None /\
   Difference Examples.town_age Examples.in_X Examples.in_Y false
     = Raise TypeError /\
   is_LookupError TypeError = false) /\
  (is_Some (Examples.three_bins !! "hist") /\
   is_Some (Examples.two_bins !! "hist") /\
   Difference Examples.histogram Examples.three_bins Examples.two_bins false
     = Raise IndexError /\
   is_LookupError IndexError = true).
Proof.
  repeat split; try (vm_compute; reflexivity); vm_compute; eauto.
Qed.

(** ** binary64 facts *)

Section Binary64.
Open Scope float_scope.

Lemma Prim2SF_zero_of_eqb (y : float) :
  (y =? 0) = true -> exists s, Prim2SF y = S754_zero s.
Proof.
  rewrite FloatAxioms.eqb_spec.
  change (Prim2SF 0) with (S754_zero false).
  destruct (Prim2SF y) as [s|s| |s m e]; cbn; try discriminate; eauto;
    destruct s; discriminate.
Qed.

Lemma is_nan_of_Prim2SF (z : float) : Prim2SF z = S754_nan -> is_nan z = true.
Proof.
  intros Hz. unfold is_nan. rewrite FloatAxioms.eqb_spec, Hz. reflexivity.
Qed.

Lemma is_infinity_of_Prim2SF (z : float) (s : bool) :
  Prim2SF z = S754_infinity s -> is_infinity z = true.
Proof.
  intros Hz. unfold is_infinity.
  rewrite FloatAxioms.eqb_spec, abs_spec, Hz. reflexivity.
Qed.

(** A float64 quotient by zero is NaN or an infinity. *)
Lemma div_by_zero (x y : float) : (y =? 0) = true -> nan_or_inf (x / y) = true.
Proof.
  intros Hy. apply Prim2SF_zero_of_eqb in Hy as [s Hy].
  pose proof (div_spec x y) as Hd. rewrite Hy in Hd.
  unfold nan_or_inf, SF64div, SFdiv in *.
  destruct (Prim2SF x) as [sx|sx| |sx mx ex].
  - rewrite (is_nan_of_Prim2SF _ Hd). reflexivity.
  - rewrite (is_infinity_of_Prim2SF _ _ Hd). apply orb_true_r.
  - rewrite (is_nan_of_Prim2SF _ Hd). reflexivity.
  - rewrite (is_infinity_of_Prim2SF _ _ Hd). apply orb_true_r.
Qed.

(** The square root of a negative float64 is NaN. *)
Lemma sqrt_negative (x : float) :
  (x <? 0) = true -> is_nan (PrimFloat.sqrt x) = true.
Proof.
  rewrite FloatAxioms.ltb_spec. change (Prim2SF 0) with (S754_zero false).
  intros Hx. apply is_nan_of_Prim2SF. rewrite sqrt_spec.
  unfold SF64sqrt, SFsqrt.
  destruct (Prim2SF x) as [s|s| |s m e]; cbn in Hx; try discriminate;
    destruct s; try discriminate; reflexivity.
Qed.

End Binary64.

(** ** C3: a weight total of zero *)

(** C3, as the code has it.  When the entries evaluate and their weights sum
    to zero: with no entry registered [Difference] raises
    [ZeroDivisionError], the int [0] divided by the int [0]; with at least one
    entry the division is numpy's, nothing is raised, and the scalar returned
    is NaN or an infinity. *)
Theorem Difference_zero_weight_total (fs : list (feature float))
    (aa bb : gmap string (val float (list float))) (get_metrics : bool)
    (ms : list float) :
  Forall2 (per_feature aa bb) fs ms ->
  PrimFloat.eqb (seq_sum (map weight fs)) 0 = true ->
  match fs with
  | [] => Difference fs aa bb get_metrics = Raise ZeroDivisionError
  | _ :: _ =>
      exists d, Difference fs aa bb get_metrics = Ok d /\
                nan_or_inf (aggregate d) = true
  end.
Proof.
  intros HF Hz. destruct fs as [|ff rest]; [reflexivity|].
  rewrite (Difference_nonempty _ aa bb ms get_metrics) by (auto; discriminate).
  eexists; split; [reflexivity|].
  assert (Hq : nan_or_inf (weighted_mean ms (map weight (ff :: rest))) = true)
    by (apply div_by_zero, Hz).
  destruct get_metrics; exact Hq.
Qed.

Lemma Difference_zero_weight_total_witness :
  exists d, Difference Examples.weightless Examples.alice Examples.bob true
              = Ok d /\ nan_or_inf (aggregate d) = true.
Proof.
  apply (Difference_zero_weight_total Examples.weightless Examples.alice
           Examples.bob true [50%float]).
  - repeat constructor; apply entry_Ok; vm_compute; reflexivity.
  - vm_compute; reflexivity.
Defined.

(** C3 as stated fails: one entry of weight 0 makes the weight total 0, and
    [Difference] returns NaN instead of raising. *)
Lemma Difference_zero_weight_total_counterexample :
  seq_sum (map weight Examples.weightless) = 0%float /\
  Difference Examples.weightless Examples.alice Examples.bob false
    = Ok (Scalar nan) /\
  is_nan nan = true.
Proof. repeat split; vm_compute; reflexivity. Qed.

(** ** C2: MaxAbsDistance *)

(** C2 against the code.  On two vectors of one length the difference and
    its absolute value are computed, and the call of [np.maximum] with that
    single argument raises [TypeError]: no maximum is returned. *)
Theorem MaxAbsDistance_raises {T : Type} `{Numeric T} (xs ys : list T) :
  length xs = length ys ->
  MaxAbsDistance (VArr xs) (VArr ys) = Raise TypeError.
Proof.
  intros Hlen. unfold MaxAbsDistance, broadcast.
  rewrite Hlen, Nat.eqb_refl. reflexivity.
Qed.

(** Whatever its arguments, [MaxAbsDistance] raises. *)
Lemma MaxAbsDistance_never_returns {T : Type} `{Numeric T}
    (a b : val T (list T)) :
  exists e, MaxAbsDistance a b = Raise e.
Proof.
  unfold MaxAbsDistance.
  destruct (broadcast num_sub a b) as [diff|e]; simpl; [|eauto].
  destruct (ufunc num_abs diff) as [absd|e]; simpl; eauto.
Qed.

Lemma MaxAbsDistance_raises_witness :
  MaxAbsDistance (VArr [1%float; 5%float]) (VArr [4%float; 3%float])
    = Raise TypeError.
Proof.
  apply (MaxAbsDistance_raises [1%float; 5%float] [4%float; 3%float]).
  reflexivity.
Defined.

(** ** C5: Hellinger distance *)

Section HellingerFacts.
Context {T : Type} `{Numeric T}.

Lemma normalize_VArr (xs : list T) :
  normalize (VArr xs) = Ok (VArr (normalized xs)).
Proof. reflexivity. Qed.

(** The index loop adds the terms of the zipped vectors, in order. *)
Lemma Hellinger_loop_spec (aa bb : list T) (n lo : nat) (bc : T) :
  (lo + n = length aa)%nat -> (length aa <= length bb)%nat ->
  Hellinger_loop (VArr aa) (VArr bb) lo n bc =
  Ok (fold_left num_add
        (map (fun p => num_sqrt (fst p * snd p)%num)
           (combine (drop lo aa) (drop lo bb))) bc).
Proof.
  revert lo bc. induction n as [|n IH]; intros lo bc Hlo Hlen.
  - simpl. rewrite drop_ge by lia. reflexivity.
  - destruct (lookup_lt_is_Some_2 aa lo) as [ai Hai]; [lia|].
    destruct (lookup_lt_is_Some_2 bb lo) as [bi Hbi]; [lia|].
    simpl. rewrite Hai, Hbi. simpl.
    rewrite IH by lia.
    rewrite (drop_S aa ai lo Hai), (drop_S bb bi lo Hbi). reflexivity.
Qed.

(** Without a clamp: the code returns sqrt(1 − BC) as it comes out. *)
Lemma HellingerDistance_spec (xs ys : list T) :
  (length xs <= length ys)%nat ->
  HellingerDistance (VArr xs) (VArr ys) =
  Ok (num_sqrt (num_one - Bhattacharyya xs ys)%num).
Proof.
  intros Hlen. unfold HellingerDistance.
  rewrite !normalize_VArr. simpl.
  rewrite (Hellinger_loop_spec (normalized xs) (normalized ys)
             (length (normalized xs)) 0 num_zero)
    by (unfold normalized; rewrite ?length_map; lia).
  reflexivity.
Qed.

End HellingerFacts.

(** C5 against the code.  On two float64 vectors, the second at least as
    long as the first, and in whatever order [np.sum] adds:
    [HellingerDistance] returns sqrt(1 − BC) with BC the sum in index order
    of sqrt((aᵢ/Σa)·(bᵢ/Σb)); nothing clamps 1 − BC, and when it is negative
    the result is NaN. *)
Theorem HellingerDistance_unclamped (array_sum : list float -> float)
    (xs ys : list float) :
  (length xs <= length ys)%nat ->
  let bc := Bhattacharyya (H:=float_Numeric_with array_sum) xs ys in
  HellingerDistance (H:=float_Numeric_with array_sum) (VArr xs) (VArr ys) =
    Ok (PrimFloat.sqrt (PrimFloat.sub 1 bc)) /\
  (PrimFloat.ltb (PrimFloat.sub 1 bc) 0 = true ->
   exists d,
     HellingerDistance (H:=float_Numeric_with array_sum) (VArr xs) (VArr ys)
       = Ok d /\
     PrimFloat.is_nan d = true).
Proof.
  intros Hlen bc.
  pose proof (HellingerDistance_spec (H:=float_Numeric_with array_sum)
                xs ys Hlen) as Hd.
  split; [exact Hd|].
  intros Hneg. eexists; split; [exact Hd|]. apply sqrt_negative, Hneg.
Qed.

Lemma HellingerDistance_unclamped_witness :
  HellingerDistance (VArr [2%float; 4%float; 3%float; 1%float])
                    (VArr [2%float; 4%float; 3%float; 1%float]) =
    Ok (PrimFloat.sqrt
          (PrimFloat.sub 1
             (Bhattacharyya [2%float; 4%float; 3%float; 1%float]
                            [2%float; 4%float; 3%float; 1%float]))) /\
  exists d, HellingerDistance (VArr [2%float; 4%float; 3%float; 1%float])
                              (VArr [2%float; 4%float; 3%float; 1%float])
              = Ok d /\ PrimFloat.is_nan d = true.
Proof.
  destruct (HellingerDistance_unclamped float_seq_sum
              [2%float; 4%float; 3%float; 1%float]
              [2%float; 4%float; 3%float; 1%float]) as [Hret Hnan].
  - simpl. lia.
  - split; [exact Hret | apply Hnan; vm_compute; reflexivity].
Defined.

(** The failing input of C5: a histogram compared with itself, entries
    non-negative and of positive sum.  Rounding makes BC exceed 1 by one unit
    in the last place, 1 − BC is negative and the code returns NaN, where the
    Hellinger distance is 0 and the clamped formula gives 0. *)
Lemma HellingerDistance_counterexample :
  let a := [2%float; 4%float; 3%float; 1%float] in
  forallb (fun x => PrimFloat.leb 0 x) a = true /\
  PrimFloat.ltb 0 (float_seq_sum a) = true /\
  PrimFloat.ltb 1 (Bhattacharyya a a) = true /\
  HellingerDistance (VArr a) (VArr a) = Ok nan /\
  PrimFloat.is_nan nan = true /\
  Hellinger_clamped a a = 0%float.
Proof. repeat split; vm_compute; reflexivity. Qed.

(** ** C6: the remaps *)






(** ** binary64: comparisons *)

Section Binary64Compare.
Open Scope float_scope.

Lemma SFcompare_antisym (x y : spec_float) :
  SFcompare y x =
  match SFcompare x y with
  | Some c => Some (CompOpp c)
  | None => None
  end.
Proof.
  destruct x as [sx|sx| |sx mx ex], y as [sy|sy| |sy my ey]; simpl;
    try reflexivity; try (destruct sx; reflexivity);
    try (destruct sy; reflexivity); try (destruct sx, sy; reflexivity).
  rewrite (Z.compare_antisym ex ey), (ZC4 my mx).
  destruct sx, sy; try reflexivity;
    destruct (ex ?= ey)%Z; simpl; try reflexivity;
    destruct (Pos.compare_cont Eq mx my); reflexivity.
Qed.

Lemma float_eqb_sym (x y : float) : (x =? y) = (y =? x).
Proof.
  rewrite !FloatAxioms.eqb_spec. unfold SFeqb.
  rewrite (SFcompare_antisym (Prim2SF y) (Prim2SF x)).
  destruct (SFcompare (Prim2SF y) (Prim2SF x)) as [[| |]|]; reflexivity.
Qed.

Lemma float_leb_of_ltb (x y : float) : (x <? y) = true -> (x <=? y) = true.
Proof.
  rewrite FloatAxioms.ltb_spec, FloatAxioms.leb_spec. unfold SFltb, SFleb.
  destruct (SFcompare (Prim2SF x) (Prim2SF y)) as [[| |]|];
    try discriminate; reflexivity.
Qed.

Lemma float_ltb_false_of_leb (x y : float) :
  (y <=? x) = true -> (x <? y) = false.
Proof.
  rewrite FloatAxioms.ltb_spec, FloatAxioms.leb_spec. unfold SFltb, SFleb.
  rewrite (SFcompare_antisym (Prim2SF y) (Prim2SF x)).
  destruct (SFcompare (Prim2SF y) (Prim2SF x)) as [[| |]|];
    try discriminate; reflexivity.
Qed.

(** A number that compares with another is no NaN. *)
Lemma float_not_nan_of_leb (x y : float) :
  (y <=? x) = true -> is_nan x = false.
Proof.
  unfold is_nan. rewrite FloatAxioms.leb_spec, FloatAxioms.eqb_spec.
  unfold SFleb, SFeqb.
  destruct (Prim2SF x) as [s|s| |s m e]; simpl.
  - reflexivity.
  - destruct s; reflexivity.
  - destruct (Prim2SF y) as [sy|sy| |sy my ey]; simpl; discriminate.
  - rewrite Z.compare_refl, Pcompare_refl. destruct s; reflexivity.
Qed.

End Binary64Compare.

(** ** binary64: the sign of a quotient *)

Section Binary64Div.
Open Scope float_scope.










(** [np.minimum(q, 1.0)]: NaN exactly when [q] is, otherwise [q] below 1.0
    and 1.0 from there on. *)
Lemma float_minimum_one (q : float) :
  (is_nan q = true -> is_nan (float_minimum q 1) = true) /\
  (is_nan q = false -> (float_minimum q 1 <=? 1) = true) /\
  ((q <? 1) = true -> float_minimum q 1 = q) /\
  ((1 <=? q) = true -> float_minimum q 1 = 1).
Proof.
  unfold float_minimum. split; [|split; [|split]].
  - intros Hnan. rewrite Hnan, orb_true_r. exact Hnan.
  - intros Hnan. rewrite Hnan, orb_false_r.
    destruct (q <? 1) eqn:Hlt.
    + apply float_leb_of_ltb, Hlt.
    + vm_compute. reflexivity.
  - intros Hlt. rewrite Hlt. reflexivity.
  - intros Hle.
    rewrite (float_ltb_false_of_leb q 1 Hle), (float_not_nan_of_leb q 1 Hle).
    reflexivity.
Qed.


(** The division of a call returns unless both numbers are Python floats
    and the divisor is a zero. *)
Lemma scalar_truediv_returns (kd kr : number_kind) (d r : float) :
  kd = NpFloat64 \/ kr = NpFloat64 \/ (r =? 0) = false ->
  scalar_truediv kd kr d r = Ok (d / r).
Proof.
  intros Hk. unfold scalar_truediv.
  destruct kd, kr; try reflexivity.
  destruct Hk as [Hk | [Hk | Hk]]; try discriminate.
  rewrite Hk. reflexivity.
Qed.

End Binary64Div.




(** ** C8: registration order *)

(** C8 as stated fails on binary64: the same three distinctly named features
    registered in two orders, the same two elements, and the two aggregates
    differ, because the sums are rounded in registration order. *)
Lemma Difference_order_counterexample :
  Permutation OrderExamples.xyz OrderExamples.zyx /\
  NoDup (map name OrderExamples.xyz) /\
  exists d1 d2,
    Difference OrderExamples.xyz OrderExamples.p123 OrderExamples.origin false
      = Ok (Scalar d1) /\
    Difference OrderExamples.zyx OrderExamples.p123 OrderExamples.origin false
      = Ok (Scalar d2) /\
    PrimFloat.ltb d2 d1 = true /\ d1 <> d2.
Proof.
  split; [|split].
  - unfold OrderExamples.xyz, OrderExamples.zyx.
    eapply perm_trans; [apply perm_skip, perm_swap|].
    eapply perm_trans; [apply perm_swap|]. apply perm_skip, perm_swap.
  - apply (bool_decide_unpack _). vm_compute. exact I.
  - eexists _, _. split; [vm_compute; reflexivity|].
    split; [vm_compute; reflexivity|].
    split; [vm_compute; reflexivity|].
    match goal with
    | |- ?a <> ?b =>
        intros Heq;
        assert (Hlt : PrimFloat.ltb b a = true) by (vm_compute; reflexivity);
        rewrite Heq in Hlt; vm_compute in Hlt; discriminate
    end.
Qed.

Section ExactOrder.

Implicit Types (fs : list (feature R)) (aa bb : gmap string (val R (list R))).

Lemma fold_left_Rplus_acc (l : list R) (a : R) :
  fold_left Rplus l a = (a + fold_left Rplus l 0)%R.
Proof.
  revert a. induction l as [|x l IH]; intros a; simpl; [lra|].
  rewrite (IH (a + x)%R), (IH (0 + x)%R). lra.
Qed.

(** Over the reals the sum does not depend on the order of its terms. *)
Lemma seq_sum_Permutation (l l' : list R) :
  Permutation l l' -> seq_sum l = seq_sum l'.
Proof.
  unfold seq_sum; simpl.
  induction 1 as [|x l l' _ IH|x y l|l1 l2 l3 _ IH1 _ IH2]; simpl.
  - reflexivity.
  - rewrite (fold_left_Rplus_acc l), (fold_left_Rplus_acc l'), IH. reflexivity.
  - rewrite (fold_left_Rplus_acc l (0 + y + x)%R),
            (fold_left_Rplus_acc l (0 + x + y)%R). lra.
  - congruence.
Qed.

(** Entries and their metrics move together under a permutation of the
    registry. *)
Lemma Forall2_Permutation_l {A B : Type} (P : A -> B -> Prop)
    (l l' : list A) (k : list B) :
  Permutation l l' -> Forall2 P l k ->
  exists k', Forall2 P l' k' /\ Permutation (combine l k) (combine l' k').
Proof.
  intros Hp. revert k.
  induction Hp as [|x l l' _ IH|x y l|l1 l2 l3 _ IH1 _ IH2]; intros k HF.
  - inversion HF; subst. exists []. split; constructor.
  - inversion HF as [|? b ? k0 Hb HF0]; subst.
    destruct (IH k0 HF0) as (k0' & HF' & Hc).
    exists (b :: k0'). split; [constructor; assumption|].
    simpl. apply perm_skip, Hc.
  - inversion HF as [|? b ? k0 Hb HF0]; subst.
    inversion HF0 as [|? c ? k1 Hc HF1]; subst.
    exists (c :: b :: k1). split; [repeat constructor; assumption|].
    simpl. apply perm_swap.
  - destruct (IH1 k HF) as (k2 & HF2 & Hc2).
    destruct (IH2 k2 HF2) as (k3 & HF3 & Hc3).
    exists k3. split; [exact HF3 | eapply perm_trans; eassumption].
Qed.

Lemma np_mul_combine fs (ms : list R) :
  length fs = length ms ->
  np_mul ms (map weight fs) =
  map (fun p => (snd p * weight (fst p))%R) (combine fs ms).
Proof.
  revert ms. induction fs as [|ff fs IH]; intros [|m ms] Hlen;
    simpl in *; try discriminate; [reflexivity|].
  unfold np_mul in *. simpl. f_equal. apply IH. lia.
Qed.

Lemma map_snd_combine {A B : Type} (l : list A) (k : list B) :
  length l = length k -> map snd (combine l k) = k.
Proof.
  revert k. induction l as [|a l IH]; intros [|b k] Hlen;
    simpl in *; try discriminate; [reflexivity|].
  f_equal. apply IH. lia.
Qed.

(** The weighted mean of a permuted registry, in exact arithmetic. *)
Lemma weighted_mean_Permutation fs fs' (ms ms' : list R) :
  length fs = length ms -> length fs' = length ms' ->
  Permutation (combine fs ms) (combine fs' ms') ->
  Permutation fs fs' ->
  weighted_mean ms (map weight fs) = weighted_mean ms' (map weight fs').
Proof.
  intros Hl Hl' Hc Hp. unfold weighted_mean.
  rewrite (np_mul_combine fs ms Hl), (np_mul_combine fs' ms' Hl').
  rewrite (seq_sum_Permutation _ _
             (Permutation_map (fun p => (snd p * weight (fst p))%R) Hc)).
  rewrite (seq_sum_Permutation _ _ (Permutation_map weight Hp)).
  reflexivity.
Qed.

End ExactOrder.

(** Whatever the arithmetic, a permuted registry returns when the registry
    does, and the metrics of the entries are the same numbers, permuted. *)
Lemma Difference_Permutation_returns {T : Type} `{Numeric T}
    (fs fs' : list (feature T)) (aa bb : gmap string (val T (list T)))
    (dd : T) (ms : list T) :
  Permutation fs fs' ->
  Difference fs aa bb true = Ok (WithMetrics dd ms) ->
  exists dd' ms',
    Permutation ms ms' /\
    Difference fs' aa bb true = Ok (WithMetrics dd' ms') /\
    Difference fs' aa bb false = Ok (Scalar dd').
Proof.
  intros Hp Hd.
  apply Difference_Ok_inv in Hd as (Hne & ms0 & HF & Heq).
  simpl in Heq. injection Heq as -> ->.
  destruct (Forall2_Permutation_l _ _ _ _ Hp HF) as (ms' & HF' & Hc).
  assert (Hne' : fs' <> []).
  { intros ->. apply Permutation_sym, Permutation_nil in Hp. congruence. }
  pose proof (Forall2_length _ _ _ HF) as Hl.
  pose proof (Forall2_length _ _ _ HF') as Hl'.
  exists (weighted_mean ms' (map weight fs')), ms'. split; [|split].
  - rewrite <- (map_snd_combine fs ms0 Hl), <- (map_snd_combine fs' ms' Hl').
    apply Permutation_map, Hc.
  - apply (Difference_nonempty fs' aa bb ms' true Hne' HF').
  - apply (Difference_nonempty fs' aa bb ms' false Hne' HF').
Qed.

(** In exact arithmetic the aggregate is the same as well. *)
Lemma Difference_Permutation_R
    (fs fs' : list (feature R)) (aa bb : gmap string (val R (list R)))
    (dd : R) (ms : list R) :
  Permutation fs fs' ->
  Difference fs aa bb true = Ok (WithMetrics dd ms) ->
  exists ms',
    Permutation ms ms' /\
    Difference fs' aa bb true = Ok (WithMetrics dd ms') /\
    Difference fs aa bb false = Ok (Scalar dd) /\
    Difference fs' aa bb false = Ok (Scalar dd).
Proof.
  intros Hp Hd.
  apply Difference_Ok_inv in Hd as (Hne & ms0 & HF & Heq).
  simpl in Heq. injection Heq as -> ->.
  destruct (Forall2_Permutation_l _ _ _ _ Hp HF) as (ms' & HF' & Hc).
  assert (Hne' : fs' <> []).
  { intros ->. apply Permutation_sym, Permutation_nil in Hp. congruence. }
  pose proof (Forall2_length _ _ _ HF) as Hl.
  pose proof (Forall2_length _ _ _ HF') as Hl'.
  pose proof (weighted_mean_Permutation fs fs' ms0 ms' Hl Hl' Hc Hp) as Hw.
  exists ms'. split; [|split; [|split]].
  - rewrite <- (map_snd_combine fs ms0 Hl), <- (map_snd_combine fs' ms' Hl').
    apply Permutation_map, Hc.
  - rewrite (Difference_nonempty fs' aa bb ms' true Hne' HF').
    cbv beta iota zeta. rewrite <- Hw. reflexivity.
  - rewrite (Difference_nonempty fs aa bb ms0 false Hne HF). reflexivity.
  - rewrite (Difference_nonempty fs' aa bb ms' false Hne' HF').
    cbv beta iota zeta. rewrite <- Hw. reflexivity.
Qed.

(** On binary64 the two aggregates can be far apart, not one rounding
    apart: with weights 1, 1 and -1 one order of registration returns 0.0
    and another 1.0, on the same two elements. *)
Lemma Difference_order_mixed_signs :
  Permutation WeightExamples.xyz WeightExamples.xzy /\
  NoDup (map name WeightExamples.xyz) /\
  Difference WeightExamples.xyz WeightExamples.far OrderExamples.origin false
    = Ok (Scalar 0%float) /\
  Difference WeightExamples.xzy WeightExamples.far OrderExamples.origin false
    = Ok (Scalar 1%float).
Proof.
  split; [|split; [|split]].
  - apply perm_skip, perm_swap.
  - apply (bool_decide_unpack _). vm_compute. exact I.
  - vm_compute. reflexivity.
  - vm_compute. reflexivity.
Qed.

(** C8, as the code has it.  Two registries that are permutations of each
    other, on the same two elements.  In every arithmetic, binary64
    included: when [Difference] returns for the one it returns for the
    other, and the two metrics lists are permutations of each other; nothing
    is said of the two aggregates.  In exact arithmetic (the reals) the two
    aggregates are equal as well, with and without the metrics list. *)
Theorem Difference_order_independent_exact :
  (forall (T : Type) (HT : Numeric T) (fs fs' : list (feature T))
          (aa bb : gmap string (val T (list T))) (dd : T) (ms : list T),
     Permutation fs fs' ->
     Difference fs aa bb true = Ok (WithMetrics dd ms) ->
     exists dd' ms',
       Permutation ms ms' /\
       Difference fs' aa bb true = Ok (WithMetrics dd' ms') /\
       Difference fs' aa bb false = Ok (Scalar dd')) /\
  (forall (fs fs' : list (feature R)) (aa bb : gmap string (val R (list R)))
          (dd : R) (ms : list R),
     Permutation fs fs' ->
     Difference fs aa bb true = Ok (WithMetrics dd ms) ->
     exists ms',
       Permutation ms ms' /\
       Difference fs' aa bb true = Ok (WithMetrics dd ms') /\
       Difference fs aa bb false = Ok (Scalar dd) /\
       Difference fs' aa bb false = Ok (Scalar dd)).
Proof.
  split.
  - intros T HT. apply Difference_Permutation_returns.
  - apply Difference_Permutation_R.
Qed.

Lemma Difference_order_independent_exact_witness :
  (exists dd' ms',
     Permutation OrderExamples.tenths ms' /\
     Difference OrderExamples.zyx OrderExamples.p123 OrderExamples.origin true
       = Ok (WithMetrics dd' ms') /\
     Difference OrderExamples.zyx OrderExamples.p123 OrderExamples.origin
       false = Ok (Scalar dd')) /\
  exists ms',
    Permutation [Rabs (1 - 4); Rabs (5 - 3)] ms' /\
    Difference OrderExamples.vu OrderExamples.here OrderExamples.there true
      = Ok (WithMetrics
              (weighted_mean [Rabs (1 - 4); Rabs (5 - 3)] [1%R; 2%R]) ms') /\
    Difference OrderExamples.uv OrderExamples.here OrderExamples.there false
      = Ok (Scalar (weighted_mean [Rabs (1 - 4); Rabs (5 - 3)] [1%R; 2%R])) /\
    Difference OrderExamples.vu OrderExamples.here OrderExamples.there false
      = Ok (Scalar (weighted_mean [Rabs (1 - 4); Rabs (5 - 3)] [1%R; 2%R])).
Proof.
  destruct Difference_order_independent_exact as [Hany Hexact]. split.
  - apply (Hany float float_Numeric OrderExamples.xyz OrderExamples.zyx
             OrderExamples.p123 OrderExamples.origin
             (weighted_mean OrderExamples.tenths
                [1%float; 1%float; 1%float])).
    + eapply perm_trans; [apply perm_skip, perm_swap|].
      eapply perm_trans; [apply perm_swap|]. apply perm_skip, perm_swap.
    + apply (Difference_nonempty OrderExamples.xyz OrderExamples.p123
               OrderExamples.origin OrderExamples.tenths true).
      * discriminate.
      * repeat constructor; apply entry_Ok; vm_compute; reflexivity.
  - apply (Hexact OrderExamples.uv OrderExamples.vu
             OrderExamples.here OrderExamples.there).
    + apply perm_swap.
    + apply (Difference_nonempty OrderExamples.uv OrderExamples.here
               OrderExamples.there [Rabs (1 - 4); Rabs (5 - 3)] true).
      * discriminate.
      * repeat constructor; apply entry_Ok; reflexivity.
Defined.

(** ** Objects: elements, registries, instances *)

Section StoreLemmas.
Context {T : Type} `{Numeric T}.

Implicit Types (h : gmap loc (obj T)) (fs : list (feature T)).

Lemma fresh_None h : h !! fresh (dom h) = None.
Proof. apply not_elem_of_dom, is_fresh. Qed.

Lemma fresh_ne h l o : h !! l = Some o -> l <> fresh (dom h).
Proof. intros Hl ->. rewrite fresh_None in Hl. discriminate. Qed.

Lemma features_of_Some h self fs :
  features_of h self = Some fs <-> exists l, registry_at h self l fs.
Proof.
  unfold features_of, registry_at, bindM, getattr_features, list_contents.
  split.
  - destruct (h !! self) as [[| | |attrs]|] eqn:Hs; simpl; try discriminate.
    destruct (attrs !! "features") as [l|] eqn:Ha; simpl.
    + destruct (h !! l) as [[| |fs'|]|] eqn:Hl; simpl; try discriminate.
      intros [= <-]. exists l. split; [|exact Hl].
      exists attrs. rewrite Ha. auto.
    + destruct (h !! class_features) as [[| |fs'|]|] eqn:Hl; simpl;
        try discriminate.
      intros [= <-]. exists class_features. split; [|exact Hl].
      exists attrs. rewrite Ha. auto.
  - intros (l & (attrs & Hs & ->) & Hl). rewrite Hs.
    destruct (attrs !! "features") as [l|]; simpl in *; rewrite Hl; reflexivity.
Qed.

Lemma Element_loop_lookup fs (e : gmap string (val T loc)) (n : string) :
  Element_loop fs e !! n =
  match last_registered n fs with
  | Some ff => Some (proto ff)
  | None => e !! n
  end.
Proof.
  revert e. induction fs as [|ff rest IH]; intros e; [reflexivity|].
  unfold Element_loop in *. simpl. rewrite IH.
  destruct (last_registered n rest); [reflexivity|].
  destruct (decide (name ff = n)) as [<- | Hne].
  - apply lookup_insert_eq.
  - apply lookup_insert_ne, Hne.
Qed.

Lemma last_registered_None fs (n : string) :
  (forall ff, In ff fs -> name ff <> n) -> last_registered n fs = None.
Proof.
  induction fs as [|g rest IH]; intros Hall; [reflexivity|]. simpl.
  rewrite IH by (intros ff Hin; apply Hall; right; exact Hin).
  destruct (decide (name g = n)) as [Heq|]; [|reflexivity].
  exfalso. apply (Hall g); [left; reflexivity | exact Heq].
Qed.

(** An entry that no later entry shadows is the one registered last under
    its name, whatever was registered before it. *)
Lemma last_registered_last (pre : list (feature T)) (f : feature T) fs :
  (forall ff, In ff fs -> name ff <> name f) ->
  last_registered (name f) (pre ++ f :: fs) = Some f.
Proof.
  intros Hlater. induction pre as [|g pre IH]; simpl.
  - rewrite (last_registered_None fs (name f) Hlater).
    destruct (decide (name f = name f)); congruence.
  - rewrite IH. reflexivity.
Qed.

Lemma Element_fill_spec fs (e : loc) (d : gmap string (val T loc)) h :
  h !! e = Some (Dict d) ->
  Element_fill e fs h = Ok (tt, <[e := Dict (Element_loop fs d)]> h).
Proof.
  revert d h. induction fs as [|ff rest IH]; intros d h He.
  - simpl. unfold ret. rewrite insert_id by exact He. reflexivity.
  - simpl. unfold bindM at 1. unfold dict_setitem at 1. rewrite He. simpl.
    rewrite (IH (<[name ff := proto ff]> d)) by apply lookup_insert_eq.
    rewrite insert_insert_eq. reflexivity.
Qed.

(** [Element] allocates one dict, fills it from the registry and touches
    nothing else. *)
Lemma Element_spec h self fs :
  features_of h self = Some fs ->
  Element self h =
  Ok (fresh (dom h), <[fresh (dom h) := Dict (Element_loop fs ∅)]> h).
Proof.
  intros Hf. apply features_of_Some in Hf as (l & (attrs & Hs & Hl) & Hfs).
  pose proof (fresh_ne h self _ Hs) as Hse.
  pose proof (fresh_ne h l _ Hfs) as Hle.
  unfold Element, bindM at 1, alloc. simpl.
  set (e := fresh (dom h)) in *. set (h1 := <[e := Dict ∅]> h).
  assert (Hs1 : h1 !! self = Some (Instance attrs))
    by (unfold h1; rewrite lookup_insert_ne by auto; exact Hs).
  assert (Hl1 : h1 !! l = Some (PyList fs))
    by (unfold h1; rewrite lookup_insert_ne by auto; exact Hfs).
  unfold bindM at 1, getattr_features. rewrite Hs1.
  assert (Hget : match attrs !! "features" with
                 | Some l0 => Ok (l0, h1)
                 | None => Ok (class_features, h1)
                 end = Ok (l, h1)).
  { rewrite Hl. destruct (attrs !! "features"); reflexivity. }
  rewrite Hget. simpl.
  unfold bindM at 1, list_contents. rewrite Hl1. simpl.
  unfold bindM at 1.
  rewrite (Element_fill_spec fs e ∅ h1) by apply lookup_insert_eq.
  simpl. unfold ret, h1. rewrite insert_insert_eq. reflexivity.
Qed.

(** An allocation leaves every registry where it was. *)
Lemma features_of_alloc h self fs (o : obj T) :
  features_of h self = Some fs ->
  features_of (<[fresh (dom h) := o]> h) self = Some fs.
Proof.
  intros Hf. apply features_of_Some in Hf as (l & (attrs & Hs & Hl) & Hfs).
  apply features_of_Some. exists l. split; [exists attrs; split; [|exact Hl]|].
  - rewrite lookup_insert_ne by (symmetry; eapply fresh_ne, Hs). exact Hs.
  - rewrite lookup_insert_ne by (symmetry; eapply fresh_ne, Hfs). exact Hfs.
Qed.

End StoreLemmas.

(** ** C7: blank elements *)

(** C7, as the code has it.  Each call of [Element] returns a dict at a
    location not in use before, so two calls return two distinct dicts; in
    each, every registered name maps to the prototype of the entry registered
    last under it; the prototype is the registry's own reference, not a copy,
    and no other object is created or changed.  Rebinding a key of one
    returned element leaves the other as it was. *)
Theorem Element_new_dict_shared_prototypes {T : Type} `{Numeric T}
    (h : gmap loc (obj T)) (self : loc) (fs : list (feature T)) :
  features_of h self = Some fs ->
  exists e1 h1 e2 h2 d,
    Element self h = Ok (e1, h1) /\ Element self h1 = Ok (e2, h2) /\
    h !! e1 = None /\ h1 !! e2 = None /\ e1 <> e2 /\
    h2 !! e1 = Some (Dict d) /\ h2 !! e2 = Some (Dict d) /\
    (forall n, d !! n = proto <$> last_registered n fs) /\
    (forall l, l <> e1 -> l <> e2 -> h2 !! l = h !! l) /\
    (forall key v, exists h3,
        dict_setitem e1 key v h2 = Ok (tt, h3) /\ h3 !! e2 = Some (Dict d)).
Proof.
  intros Hf.
  set (e1 := fresh (dom h)). set (d := Element_loop fs ∅).
  set (h1 := <[e1 := Dict d]> h).
  set (e2 := fresh (dom h1)). set (h2 := <[e2 := Dict d]> h1).
  assert (Hne : e1 <> e2).
  { apply (fresh_ne h1 e1 (Dict d)). apply lookup_insert_eq. }
  exists e1, h1, e2, h2, d. repeat split.
  - apply Element_spec, Hf.
  - apply Element_spec, features_of_alloc, Hf.
  - apply fresh_None.
  - apply fresh_None.
  - exact Hne.
  - unfold h2, h1. rewrite lookup_insert_ne by auto. apply lookup_insert_eq.
  - apply lookup_insert_eq.
  - intros n. unfold d. rewrite Element_loop_lookup.
    destruct (last_registered n fs); [reflexivity | apply lookup_empty].
  - intros l Hl1 Hl2. unfold h2, h1. rewrite !lookup_insert_ne by auto.
    reflexivity.
  - intros key v. eexists. unfold dict_setitem.
    assert (He1 : h2 !! e1 = Some (Dict d)).
    { unfold h2, h1. rewrite lookup_insert_ne by auto. apply lookup_insert_eq. }
    rewrite He1. split; [reflexivity|].
    rewrite lookup_insert_ne by auto. apply lookup_insert_eq.
Qed.

Lemma Element_new_dict_shared_prototypes_witness :
  exists e1 h1 e2 h2 d,
    Element 2%positive Examples.age_store = Ok (e1, h1) /\
    Element 2%positive h1 = Ok (e2, h2) /\ e1 <> e2 /\
    h2 !! e1 = Some (Dict d) /\ h2 !! e2 = Some (Dict d) /\
    d !! "age" = Some VNone.
Proof.
  destruct (Element_new_dict_shared_prototypes Examples.age_store 2%positive
              [Examples.entry_of "age" ManhattanDistance None 1%float 1%float])
    as (e1 & h1 & e2 & h2 & d & He1 & He2 & _ & _ & Hne & Hd1 & Hd2 & Hd & _).
  - vm_compute. reflexivity.
  - exists e1, h1, e2, h2, d. repeat split; try assumption.
    rewrite (Hd "age"). vm_compute. reflexivity.
Defined.

(** C7 as stated fails: the two elements hold the one prototype array, so a
    write through the first is read back through the second. *)
Lemma Element_sharing_counterexample :
  exists h, sharing_demo module_store = Ok ((0%float, 9%float), h).
Proof. eexists. vm_compute. reflexivity. Qed.

(** ** C9: duplicate names *)

(** C9.  When two entries of the registry share a name and no later entry has
    it, the dict that [Element] returns maps the name to the prototype of the
    later of the two; [Difference] still evaluates every entry, duplicates
    included, in registration order: the metrics it returns are one per
    entry, in that order. *)
Theorem duplicate_name_shadowing {T : Type} `{Numeric T}
    (h : gmap loc (obj T)) (self : loc)
    (fs1 fs2 fs3 : list (feature T)) (f1 f2 : feature T)
    (aa bb : gmap string (val T (list T))) :
  features_of h self = Some (fs1 ++ f1 :: fs2 ++ f2 :: fs3) ->
  name f1 = name f2 ->
  (forall ff, In ff fs3 -> name ff <> name f2) ->
  (exists e h' d,
     Element self h = Ok (e, h') /\ h' !! e = Some (Dict d) /\
     d !! name f1 = Some (proto f2)) /\
  (forall dd ms,
     Difference (fs1 ++ f1 :: fs2 ++ f2 :: fs3) aa bb true
       = Ok (WithMetrics dd ms) <->
     Forall2 (per_feature aa bb) (fs1 ++ f1 :: fs2 ++ f2 :: fs3) ms /\
     dd = weighted_mean ms (map weight (fs1 ++ f1 :: fs2 ++ f2 :: fs3))).
Proof.
  intros Hf Hname Hlater. split.
  - eexists _, _, _. split; [apply Element_spec, Hf|].
    split; [apply lookup_insert_eq|].
    rewrite Element_loop_lookup, Hname.
    replace (fs1 ++ f1 :: fs2 ++ f2 :: fs3)
      with ((fs1 ++ f1 :: fs2) ++ f2 :: fs3)
      by (rewrite <- app_assoc; reflexivity).
    rewrite (last_registered_last _ _ _ Hlater). reflexivity.
  - intros dd ms. split.
    + intros Hd. apply Difference_Ok_inv in Hd as (_ & ms0 & HF & Heq).
      simpl in Heq. injection Heq as -> ->. auto.
    + intros [HF ->].
      rewrite (Difference_nonempty _ aa bb ms true); [reflexivity | | exact HF].
      destruct fs1; discriminate.
Qed.

Lemma duplicate_name_shadowing_witness :
  (exists e h' d,
     Element 2%positive Examples.age_twice_store = Ok (e, h') /\
     h' !! e = Some (Dict d) /\ d !! "age" = Some (VNum 2%float)) /\
  Difference [Examples.age_first; Examples.age_second]
      Examples.alice Examples.bob true
    = Ok (WithMetrics (weighted_mean [50%float; 50%float] [1%float; 3%float])
            [50%float; 50%float]).
Proof.
  destruct (duplicate_name_shadowing Examples.age_twice_store 2%positive
              [] [] [] Examples.age_first Examples.age_second
              Examples.alice Examples.bob) as [Helem Hdiff].
  - vm_compute. reflexivity.
  - reflexivity.
  - intros ff [].
  - split; [exact Helem|].
    apply (proj2 (Hdiff _ [50%float; 50%float])). split; [|reflexivity].
    repeat constructor; apply entry_Ok; vm_compute; reflexivity.
Defined.

(** ** C10: one registry per instance *)

Section InstanceFacts.
Context {T : Type} `{Numeric T}.

Implicit Types (h : gmap loc (obj T)) (fs : list (feature T)).

Lemma FeatureSpace_spec h :
  exists s l,
    h !! s = None /\ h !! l = None /\ s <> l /\
    FeatureSpace h =
      Ok (s, <[s := Instance {[ "features" := l ]}]> (<[l := PyList []]> h)).
Proof.
  set (s := fresh (dom h)). set (h1 := <[s := Instance ∅]> h).
  set (l := fresh (dom h1)).
  assert (Hsl : s <> l).
  { apply (fresh_ne h1 s (Instance ∅)). apply lookup_insert_eq. }
  assert (Hl1 : h1 !! l = None) by apply fresh_None.
  exists s, l. split; [apply fresh_None|]. split; [|split; [exact Hsl|]].
  - unfold h1 in Hl1. rewrite lookup_insert_ne in Hl1 by auto. exact Hl1.
  - unfold FeatureSpace, bindM at 1, alloc. simpl. fold s h1.
    unfold bindM at 1, __init__, bindM at 1, alloc. simpl. fold l.
    unfold setattr_features.
    rewrite lookup_insert_ne by auto. unfold h1 at 1.
    rewrite lookup_insert_eq. simpl. unfold ret. unfold h1.
    rewrite (insert_insert_ne h l s) by auto.
    rewrite insert_insert_eq, insert_empty. reflexivity.
Qed.

Lemma AddFeature_spec h self l fs n p m r rg w :
  registry_at h self l fs ->
  AddFeature self n p m r rg w h =
  Ok (tt, <[l := PyList (fs ++ [ {| name := n; proto := p; metric := m;
                                     remap := r; range := rg;
                                     weight := w |} ])]> h).
Proof.
  intros ((attrs & Hs & Hl) & Hfs).
  unfold AddFeature, bindM, getattr_features. rewrite Hs.
  assert (Hget : match attrs !! "features" with
                 | Some l0 => Ok (l0, h)
                 | None => Ok (class_features, h)
                 end = Ok (l, h)).
  { rewrite Hl. destruct (attrs !! "features"); reflexivity. }
  rewrite Hget. simpl. unfold list_append. rewrite Hfs. reflexivity.
Qed.

(** Writing an object that is no instance, and a list where a list was,
    keeps the registries separate. *)
Lemma registries_separate_insert h (l : loc) (o : obj T) :
  registries_separate h ->
  ~ is_Instance o ->
  (forall fs, h !! l = Some (PyList fs) -> is_PyList o) ->
  registries_separate (<[l := o]> h).
Proof.
  intros [Hc Hown Hdist] Hno Hlist. split.
  - destruct Hc as [cfs Hc]. destruct (decide (l = class_features)) as [->|Hne].
    + destruct (Hlist cfs Hc) as [fs' ->]. exists fs'. apply lookup_insert_eq.
    + exists cfs. rewrite lookup_insert_ne by auto. exact Hc.
  - intros s attrs Hs.
    assert (Hsl : l <> s).
    { intros ->. rewrite lookup_insert_eq in Hs. injection Hs as ->.
      apply Hno. exists attrs. reflexivity. }
    rewrite lookup_insert_ne in Hs by auto.
    destruct (Hown s attrs Hs) as (l0 & fs0 & Ha & Hl0 & Hfs0).
    destruct (decide (l = l0)) as [->|Hne].
    + destruct (Hlist fs0 Hfs0) as [fs' ->].
      exists l0, fs'. rewrite lookup_insert_eq. auto.
    + exists l0, fs0. rewrite lookup_insert_ne by auto. auto.
  - intros s1 s2 a1 a2 l0 Hs1 Hs2.
    assert (Hne : forall s a, <[l := o]> h !! s = Some (Instance a) ->
                              h !! s = Some (Instance a)).
    { intros s a Hs. destruct (decide (l = s)) as [->|Hn].
      - rewrite lookup_insert_eq in Hs. injection Hs as ->.
        exfalso. apply Hno. exists a. reflexivity.
      - rewrite lookup_insert_ne in Hs by auto. exact Hs. }
    apply Hne in Hs1, Hs2. eapply Hdist; eassumption.
Qed.

(** A new instance bound to a list that no instance refers to. *)
Lemma registries_separate_new h (s l : loc) fs :
  registries_separate h ->
  h !! s = None -> h !! l = Some (PyList fs) -> l <> class_features ->
  (forall s' a', h !! s' = Some (Instance a') -> a' !! "features" <> Some l) ->
  registries_separate (<[s := Instance {[ "features" := l ]}]> h).
Proof.
  intros [Hc Hown Hdist] Hs Hl Hlc Hunused.
  assert (Hsl : s <> l) by (intros ->; congruence).
  split.
  - destruct Hc as [cfs Hc]. exists cfs.
    rewrite lookup_insert_ne by (intros ->; congruence). exact Hc.
  - intros s' attrs Hs'. destruct (decide (s = s')) as [<-|Hne].
    + rewrite lookup_insert_eq in Hs'. injection Hs' as <-.
      exists l, fs. rewrite lookup_singleton_eq, lookup_insert_ne by auto. auto.
    + rewrite lookup_insert_ne in Hs' by auto.
      destruct (Hown s' attrs Hs') as (l0 & fs0 & Ha & Hl0 & Hfs0).
      exists l0, fs0. rewrite lookup_insert_ne by (intros ->; congruence). auto.
  - intros s1 s2 a1 a2 l0 Hs1 Hs2 Ha1 Ha2.
    destruct (decide (s = s1)) as [<-|Hn1], (decide (s = s2)) as [<-|Hn2];
      [reflexivity | | |].
    + rewrite lookup_insert_eq in Hs1. injection Hs1 as <-.
      rewrite lookup_insert_ne in Hs2 by auto.
      rewrite lookup_singleton_eq in Ha1. injection Ha1 as <-.
      exfalso. eapply Hunused; eassumption.
    + rewrite lookup_insert_eq in Hs2. injection Hs2 as <-.
      rewrite lookup_insert_ne in Hs1 by auto.
      rewrite lookup_singleton_eq in Ha2. injection Ha2 as <-.
      exfalso. eapply Hunused; eassumption.
    + rewrite lookup_insert_ne in Hs1, Hs2 by auto. eapply Hdist; eassumption.
Qed.

Lemma registries_separate_module : registries_separate (module_store (T:=T)).
Proof.
  split.
  - exists []. apply lookup_singleton_eq.
  - intros s attrs Hs. unfold module_store in Hs.
    apply lookup_singleton_Some in Hs as [_ Hs]. discriminate.
  - intros s1 s2 a1 a2 l Hs. unfold module_store in Hs.
    apply lookup_singleton_Some in Hs as [_ Hs]. discriminate.
Qed.

Lemma registries_separate_FeatureSpace h s h' :
  registries_separate h -> FeatureSpace h = Ok (s, h') ->
  registries_separate h'.
Proof.
  intros Hinv Hnew.
  destruct (FeatureSpace_spec h) as (s0 & l & Hs & Hl & Hsl & Heq).
  rewrite Heq in Hnew. injection Hnew as <- <-.
  apply (registries_separate_new _ s0 l []).
  - apply registries_separate_insert;
      [exact Hinv | intros [a Ha]; discriminate|].
    intros fs Hfs. congruence.
  - rewrite lookup_insert_ne by auto. exact Hs.
  - apply lookup_insert_eq.
  - intros ->. destruct (class_list _ Hinv) as [cfs Hc]. congruence.
  - intros s' a' Hs' Ha'.
    destruct (decide (l = s')) as [<-|Hne].
    + rewrite lookup_insert_eq in Hs'. discriminate.
    + rewrite lookup_insert_ne in Hs' by auto.
      destruct (own_list _ Hinv s' a' Hs') as (l0 & fs0 & Ha & _ & Hfs0).
      congruence.
Qed.

End InstanceFacts.

Section ReachableFacts.
Context {T : Type} `{Numeric T}.

Implicit Types (h : gmap loc (obj T)) (fs : list (feature T)).

Lemma AddFeature_Ok_inv h self n p m r rg w h' :
  AddFeature self n p m r rg w h = Ok (tt, h') ->
  exists l fs, registry_at h self l fs.
Proof.
  unfold AddFeature, bindM, getattr_features, list_append, registry_at.
  destruct (h !! self) as [[| | |attrs]|] eqn:Hs; simpl; try discriminate.
  destruct (attrs !! "features") as [l|] eqn:Ha; simpl.
  - destruct (h !! l) as [[| |fs|]|] eqn:Hl; simpl; try discriminate.
    intros _. exists l, fs. split; [|exact Hl]. exists attrs. rewrite Ha. auto.
  - destruct (h !! class_features) as [[| |fs|]|] eqn:Hl; simpl;
      try discriminate.
    intros _. exists class_features, fs. split; [|exact Hl].
    exists attrs. rewrite Ha. auto.
Qed.

Lemma Element_Ok_inv h self e h' :
  Element self h = Ok (e, h') -> exists fs, features_of h self = Some fs.
Proof.
  unfold Element, bindM at 1, alloc. simpl.
  set (e0 := fresh (dom h)). set (h1 := <[e0 := Dict ∅]> h).
  unfold bindM at 1, getattr_features.
  destruct (h1 !! self) as [[| | |attrs]|] eqn:Hs; simpl; try discriminate.
  assert (Hs0 : h !! self = Some (Instance attrs)).
  { unfold h1 in Hs. destruct (decide (e0 = self)) as [<-|Hne].
    - rewrite lookup_insert_eq in Hs. discriminate.
    - rewrite lookup_insert_ne in Hs by auto. exact Hs. }
  assert (Hget : exists l, l = default class_features (attrs !! "features") /\
            match attrs !! "features" with
            | Some l0 => Ok (l0, h1)
            | None => Ok (class_features, h1)
            end = Ok (l, h1)).
  { destruct (attrs !! "features") as [l|]; eexists; split; reflexivity. }
  destruct Hget as (l & Hl & ->). simpl.
  unfold bindM at 1, list_contents.
  destruct (h1 !! l) as [[| |fs|]|] eqn:Hfs; simpl; try discriminate.
  intros _. exists fs. apply features_of_Some. exists l. split.
  - exists attrs. auto.
  - unfold h1 in Hfs. destruct (decide (e0 = l)) as [<-|Hne].
    + rewrite lookup_insert_eq in Hfs. discriminate.
    + rewrite lookup_insert_ne in Hfs by auto. exact Hfs.
Qed.

Lemma not_Instance_Dict d : ~ is_Instance (T:=T) (Dict d).
Proof. intros [a Ha]. discriminate. Qed.

Lemma not_Instance_Ndarray xs : ~ is_Instance (T:=T) (Ndarray xs).
Proof. intros [a Ha]. discriminate. Qed.

Lemma not_Instance_PyList fs : ~ is_Instance (PyList fs).
Proof. intros [a Ha]. discriminate. Qed.

Lemma step_registries_separate h h' :
  registries_separate h -> step h h' -> registries_separate h'.
Proof.
  intros Hinv Hstep.
  destruct Hstep as [h s h' Hnew | h self n p m r rg w h' Hadd
    | h self e h' Hel | h xs l h' Hal | h d l h' Hal
    | h e key v h' Hset | h l i x h' Hset].
  - eapply registries_separate_FeatureSpace; eassumption.
  - pose proof (AddFeature_Ok_inv _ _ _ _ _ _ _ _ _ Hadd) as (l & fs & Hreg).
    rewrite (AddFeature_spec h self l fs n p m r rg w Hreg) in Hadd.
    injection Hadd as <-.
    apply registries_separate_insert;
      [exact Hinv | apply not_Instance_PyList | intros; eexists; reflexivity].
  - pose proof (Element_Ok_inv _ _ _ _ Hel) as (fs & Hf).
    rewrite (Element_spec h self fs Hf) in Hel. injection Hel as <- <-.
    apply registries_separate_insert;
      [exact Hinv | apply not_Instance_Dict |].
    intros fs' Hfs'. rewrite fresh_None in Hfs'. discriminate.
  - unfold alloc in Hal. injection Hal as <- <-.
    apply registries_separate_insert;
      [exact Hinv | apply not_Instance_Ndarray |].
    intros fs' Hfs'. rewrite fresh_None in Hfs'. discriminate.
  - unfold alloc in Hal. injection Hal as <- <-.
    apply registries_separate_insert;
      [exact Hinv | apply not_Instance_Dict |].
    intros fs' Hfs'. rewrite fresh_None in Hfs'. discriminate.
  - unfold dict_setitem in Hset.
    destruct (h !! e) as [[|d| |]|] eqn:He; try discriminate.
    injection Hset as <-.
    apply registries_separate_insert;
      [exact Hinv | apply not_Instance_Dict |].
    intros fs' Hfs'. congruence.
  - unfold ndarray_setitem in Hset.
    destruct (h !! l) as [[xs| | |]|] eqn:Hl; try discriminate.
    destruct (decide (i < length xs)%nat); try discriminate.
    injection Hset as <-.
    apply registries_separate_insert;
      [exact Hinv | apply not_Instance_Ndarray |].
    intros fs' Hfs'. congruence.
Qed.

Lemma reachable_registries_separate h :
  reachable h -> registries_separate h.
Proof.
  induction 1 as [|h h' _ IH Hstep].
  - apply registries_separate_module.
  - eapply step_registries_separate; eassumption.
Qed.

(** In a store with separate registries, an instance's registry is the list
    its own attribute is bound to. *)
Lemma registry_at_own h self attrs :
  registries_separate h -> h !! self = Some (Instance attrs) ->
  exists l fs, attrs !! "features" = Some l /\ l <> class_features /\
               registry_at h self l fs.
Proof.
  intros Hinv Hs. destruct (own_list _ Hinv self attrs Hs)
    as (l & fs & Ha & Hlc & Hfs).
  exists l, fs. split; [exact Ha|]. split; [exact Hlc|]. split; [|exact Hfs].
  exists attrs. rewrite Ha. auto.
Qed.

Lemma features_of_unfold h (s : loc) :
  features_of h s =
  match h !! s with
  | Some (Instance attrs) =>
      match h !! default class_features (attrs !! "features") with
      | Some (PyList fs) => Some fs
      | _ => None
      end
  | _ => None
  end.
Proof.
  unfold features_of, bindM, getattr_features, list_contents.
  destruct (h !! s) as [[| | |attrs]|]; simpl; try reflexivity.
  destruct (attrs !! "features") as [l|]; simpl.
  - destruct (h !! l) as [[| | |]|]; reflexivity.
  - destruct (h !! class_features) as [[| | |]|]; reflexivity.
Qed.

(** Replacing the list of one instance leaves the registry that any other
    object sees. *)
Lemma features_of_other h self attrs l fs fs' (s' : loc) :
  registries_separate h -> h !! self = Some (Instance attrs) ->
  attrs !! "features" = Some l -> h !! l = Some (PyList fs) ->
  s' <> self ->
  features_of (<[l := PyList fs']> h) s' = features_of h s'.
Proof.
  intros Hinv Hs Ha Hfs Hne. rewrite !features_of_unfold.
  destruct (decide (l = s')) as [<-|Hls].
  - rewrite lookup_insert_eq, Hfs. reflexivity.
  - rewrite lookup_insert_ne by auto.
    destruct (h !! s') as [[| | |a']|] eqn:Hs'; try reflexivity.
    destruct (own_list _ Hinv s' a' Hs') as (l0 & fs0 & Ha' & _ & _).
    rewrite Ha'. simpl.
    rewrite lookup_insert_ne; [reflexivity|].
    intros <-. apply Hne. symmetry.
    eapply (lists_distinct _ Hinv self s'); eassumption.
Qed.

End ReachableFacts.

Section MethodFacts.
Context {T : Type} `{Numeric T}.

Implicit Types (h : gmap loc (obj T)) (fs : list (feature T)).

Lemma load_insert_PyList h (l : loc) fs fs' (v : val T loc) :
  h !! l = Some (PyList fs) -> load (<[l := PyList fs']> h) v = load h v.
Proof.
  intros Hl. destruct v as [| | |l0]; try reflexivity. simpl.
  destruct (decide (l = l0)) as [<-|Hne].
  - rewrite lookup_insert_eq, Hl. reflexivity.
  - rewrite lookup_insert_ne by auto. reflexivity.
Qed.

(** What [Difference_method] returns, read off the store. *)
Lemma Difference_method_unfold h (s aa bb : loc) (get_metrics : bool) :
  result_map fst (Difference_method s aa bb get_metrics h) =
  match features_of h s with
  | None => Raise AttributeError
  | Some fs =>
      match h !! aa with
      | Some (Dict da) =>
          match h !! bb with
          | Some (Dict db) =>
              Difference fs (load h <$> da) (load h <$> db) get_metrics
          | _ => Raise TypeError
          end
      | _ => Raise TypeError
      end
  end.
Proof.
  rewrite features_of_unfold.
  unfold Difference_method, bindM, getattr_features, list_contents,
    dict_contents.
  destruct (h !! s) as [[| | |attrs]|]; simpl; try reflexivity.
  assert (Hget : forall (k : loc * gmap loc (obj T) ->
                             result (difference T * gmap loc (obj T))),
            (let* r := match attrs !! "features" with
                       | Some l => Ok (l, h)
                       | None => Ok (class_features, h)
                       end in k r) =
            k (default class_features (attrs !! "features"), h)).
  { intros k. destruct (attrs !! "features"); reflexivity. }
  rewrite Hget. simpl.
  destruct (h !! default class_features (attrs !! "features"))
    as [[| |fs|]|]; simpl; try reflexivity.
  destruct (h !! aa) as [[|da| |]|]; simpl; try reflexivity.
  destruct (h !! bb) as [[|db| |]|]; simpl; try reflexivity.
  destruct (Difference fs (load h <$> da) (load h <$> db) get_metrics);
    reflexivity.
Qed.

Lemma Difference_method_other h self attrs l fs fs' (s' aa bb : loc)
    (get_metrics : bool) :
  registries_separate h -> h !! self = Some (Instance attrs) ->
  attrs !! "features" = Some l -> h !! l = Some (PyList fs) ->
  s' <> self ->
  result_map fst
    (Difference_method s' aa bb get_metrics (<[l := PyList fs']> h)) =
  result_map fst (Difference_method s' aa bb get_metrics h).
Proof.
  intros Hinv Hs Ha Hfs Hne. rewrite !Difference_method_unfold.
  rewrite (features_of_other h self attrs l fs fs' s' Hinv Hs Ha Hfs Hne).
  destruct (features_of h s') as [fs0|]; [|reflexivity].
  assert (Hload : forall d : gmap string (val T loc),
            load (<[l := PyList fs']> h) <$> d = load h <$> d).
  { intros d. apply map_fmap_ext. intros k v _.
    eapply load_insert_PyList, Hfs. }
  assert (Hdict : forall x : loc,
            match <[l := PyList fs']> h !! x with
            | Some (Dict d) => Some d | _ => None end =
            match h !! x with Some (Dict d) => Some d | _ => None end).
  { intros x. destruct (decide (l = x)) as [<-|Hn].
    - rewrite lookup_insert_eq, Hfs. reflexivity.
    - rewrite lookup_insert_ne by auto. reflexivity. }
  pose proof (Hdict aa) as Haa. pose proof (Hdict bb) as Hbb.
  destruct (<[l := PyList fs']> h !! aa) as [[|da'| |]|],
           (h !! aa) as [[|da| |]|]; try discriminate; try reflexivity.
  injection Haa as ->.
  destruct (<[l := PyList fs']> h !! bb) as [[|db'| |]|],
           (h !! bb) as [[|db| |]|]; try discriminate; try reflexivity.
  injection Hbb as ->. rewrite !Hload. reflexivity.
Qed.

Lemma Element_other h self attrs l fs fs' (s' e : loc) h1 :
  registries_separate h -> h !! self = Some (Instance attrs) ->
  attrs !! "features" = Some l -> h !! l = Some (PyList fs) ->
  s' <> self ->
  Element s' h = Ok (e, h1) ->
  exists h1', Element s' (<[l := PyList fs']> h) = Ok (e, h1') /\
              h1' !! e = h1 !! e.
Proof.
  intros Hinv Hs Ha Hfs Hne Hel.
  destruct (Element_Ok_inv _ _ _ _ Hel) as (fs0 & Hf).
  rewrite (Element_spec h s' fs0 Hf) in Hel. injection Hel as <- <-.
  assert (Hf' : features_of (<[l := PyList fs']> h) s' = Some fs0).
  { rewrite (features_of_other h self attrs l fs fs' s' Hinv Hs Ha Hfs Hne).
    exact Hf. }
  rewrite (Element_spec _ s' fs0 Hf').
  assert (Hdom : dom (<[l := PyList fs']> h) = dom h).
  { apply dom_insert_lookup_L. rewrite Hfs. eauto. }
  rewrite Hdom. eexists. split; [reflexivity|].
  rewrite !lookup_insert_eq. reflexivity.
Qed.

Lemma features_of_FeatureSpace h (s l s' : loc) :
  registries_separate h -> h !! s = None -> h !! l = None -> s <> l ->
  features_of (<[s := Instance {[ "features" := l ]}]> (<[l := PyList []]> h))
    s' = if decide (s' = s) then Some [] else features_of h s'.
Proof.
  intros Hinv Hs Hl Hsl. rewrite !features_of_unfold.
  destruct (decide (s' = s)) as [->|Hne].
  - rewrite lookup_insert_eq, lookup_singleton_eq. simpl.
    rewrite lookup_insert_ne, lookup_insert_eq by auto. reflexivity.
  - rewrite lookup_insert_ne by auto.
    destruct (decide (l = s')) as [<-|Hls].
    + rewrite lookup_insert_eq, Hl. reflexivity.
    + rewrite lookup_insert_ne by auto.
      destruct (h !! s') as [[| | |a']|] eqn:Hs'; try reflexivity.
      destruct (own_list _ Hinv s' a' Hs') as (l0 & fs0 & Ha' & _ & Hfs0).
      rewrite Ha'. simpl.
      rewrite !lookup_insert_ne by (intros <-; congruence). reflexivity.
Qed.

End MethodFacts.

(** C10.  In every store a program reaches from the imported module: each
    instance holds a registry list of its own, which is neither the
    class-level list nor the list of another instance; the constructor returns
    a new instance whose registry is empty and leaves the registry of every
    other object as it was; and [AddFeature] on an instance returns, appends
    the entry to that instance's registry, and leaves to every other object
    its registry, the location and contents of the dict that [Element]
    returns, and the result of [Difference]. *)
Theorem registries_independent {T : Type} `{Numeric T}
    (h : gmap loc (obj T)) :
  reachable h ->
  registries_separate h /\
  (exists s h',
     FeatureSpace h = Ok (s, h') /\ h !! s = None /\
     features_of h' s = Some [] /\
     forall s', s' <> s -> features_of h' s' = features_of h s') /\
  (forall self attrs n p m r rg w,
     h !! self = Some (Instance attrs) ->
     exists fs h',
       features_of h self = Some fs /\
       AddFeature self n p m r rg w h = Ok (tt, h') /\
       features_of h' self =
         Some (fs ++ [ {| name := n; proto := p; metric := m; remap := r;
                          range := rg; weight := w |} ]) /\
       forall s', s' <> self ->
         features_of h' s' = features_of h s' /\
         (forall e h1, Element s' h = Ok (e, h1) ->
            exists h1', Element s' h' = Ok (e, h1') /\ h1' !! e = h1 !! e) /\
         (forall aa bb get_metrics,
            result_map fst (Difference_method s' aa bb get_metrics h') =
            result_map fst (Difference_method s' aa bb get_metrics h))).
Proof.
  intros Hreach. pose proof (reachable_registries_separate h Hreach) as Hinv.
  split; [exact Hinv|]. split.
  - destruct (FeatureSpace_spec h) as (s & l & Hs & Hl & Hsl & Heq).
    eexists s, _. split; [exact Heq|]. split; [exact Hs|]. split.
    + rewrite (features_of_FeatureSpace h s l s Hinv Hs Hl Hsl).
      destruct (decide (s = s)); congruence.
    + intros s' Hne.
      rewrite (features_of_FeatureSpace h s l s' Hinv Hs Hl Hsl).
      destruct (decide (s' = s)); congruence.
  - intros self attrs n p m r rg w Hs.
    destruct (registry_at_own h self attrs Hinv Hs)
      as (l & fs & Ha & Hlc & Hreg).
    pose proof Hreg as (_ & Hfs).
    exists fs. eexists. split; [apply features_of_Some; eauto|].
    split; [apply (AddFeature_spec h self l fs n p m r rg w Hreg)|].
    split.
    + apply features_of_Some. exists l. split; [|apply lookup_insert_eq].
      exists attrs. rewrite Ha. split; [|reflexivity].
      rewrite lookup_insert_ne by (intros <-; congruence). exact Hs.
    + intros s' Hne. split; [|split].
      * eapply features_of_other; eassumption.
      * intros e h1. eapply Element_other; eassumption.
      * intros aa bb gm. eapply Difference_method_other; eassumption.
Qed.

Lemma two_spaces_reachable : reachable two_spaces.
Proof.
  eapply reachable_step;
    [eapply reachable_step; [apply reachable_module|] |];
    eapply step_FeatureSpace; vm_compute; reflexivity.
Qed.

Lemma registries_independent_witness :
  exists h',
    AddFeature_defaults 2%positive "age" VNone two_spaces = Ok (tt, h') /\
    (exists f, features_of h' 2%positive = Some [f] /\ name f = "age") /\
    features_of h' 4%positive = Some [] /\
    features_of two_spaces 4%positive = Some [].
Proof.
  destruct (registries_independent two_spaces two_spaces_reachable)
    as (_ & _ & Hadd).
  destruct (Hadd 2%positive {[ "features" := 3%positive ]} "age" VNone
              ManhattanDistance None 1%float 1%float)
    as (fs & h' & Hfs & Hret & Hself & Hother).
  - vm_compute. reflexivity.
  - assert (Hnil : fs = []).
    { assert (Hc : features_of two_spaces 2%positive = Some [])
        by (vm_compute; reflexivity).
      congruence. }
    subst fs. exists h'. split; [exact Hret|]. split; [|split].
    + eexists. split; [exact Hself | reflexivity].
    + rewrite (proj1 (Hother 4%positive ltac:(discriminate))).
      vm_compute. reflexivity.
    + vm_compute. reflexivity.
Defined.

(** * Further properties *)

(** ** [Difference] and the keys of its elements *)

Section DifferenceMore.
Context {T : Type} `{Numeric T}.

Implicit Types (ff : feature T) (aa bb : gmap string (val T (list T))).

(** Two loops whose turns agree entry by entry end alike. *)
Lemma Difference_loop_ext (fs : list (feature T)) aa bb aa' bb' ms ws :
  (forall ff, In ff fs -> entry aa' bb' ff = entry aa bb ff) ->
  Difference_loop fs aa' bb' ms ws = Difference_loop fs aa bb ms ws.
Proof.
  revert ms ws. induction fs as [|ff rest IH]; intros ms ws Hext.
  - reflexivity.
  - rewrite !Difference_loop_cons, (Hext ff) by (left; reflexivity).
    destruct (entry aa bb ff) as [m|e]; simpl; [|reflexivity].
    apply IH. intros g Hg. apply Hext. right. exact Hg.
Qed.

Lemma Difference_ext (fs : list (feature T)) aa bb aa' bb' get_metrics :
  (forall ff, In ff fs -> entry aa' bb' ff = entry aa bb ff) ->
  Difference fs aa' bb' get_metrics = Difference fs aa bb get_metrics.
Proof.
  intros Hext. unfold Difference.
  rewrite (Difference_loop_ext fs aa bb aa' bb' [] [] Hext). reflexivity.
Qed.

Lemma entry_agree ff aa bb aa' bb' :
  aa' !! name ff = aa !! name ff -> bb' !! name ff = bb !! name ff ->
  entry aa' bb' ff = entry aa bb ff.
Proof. unfold entry, dict_getitem. intros -> ->. reflexivity. Qed.

Lemma entry_swap ff aa bb :
  symmetric_metric ff -> entry aa bb ff = entry bb aa ff.
Proof.
  intros Hsym. unfold entry, dict_getitem.
  destruct (aa !! name ff) as [va|], (bb !! name ff) as [vb|]; simpl;
    try reflexivity.
  rewrite (Hsym va vb). reflexivity.
Qed.

End DifferenceMore.

(** X1.  [Difference] reads its two elements under the registered names
    only: two pairs of elements that agree under every registered name get
    the same result, the same exception included, whatever other keys they
    hold. *)
Theorem Difference_ignores_other_keys {T : Type} `{Numeric T}
    (fs : list (feature T)) (aa bb aa' bb' : gmap string (val T (list T)))
    (get_metrics : bool) :
  agree_on fs aa aa' -> agree_on fs bb bb' ->
  Difference fs aa' bb' get_metrics = Difference fs aa bb get_metrics.
Proof.
  intros Ha Hb. apply Difference_ext. intros ff Hin.
  apply entry_agree; [apply Ha | apply Hb]; exact Hin.
Qed.

Lemma Difference_ignores_other_keys_witness :
  Difference Examples.census
    (<["town" := VStr "X"]> Examples.alice) (delete "town" Examples.bob) true
  = Difference Examples.census Examples.alice Examples.bob true.
Proof.
  apply (Difference_ignores_other_keys Examples.census Examples.alice
           Examples.bob (<["town" := VStr "X"]> Examples.alice)
           (delete "town" Examples.bob) true).
  - intros ff [<- | [<- | []]]; vm_compute; reflexivity.
  - intros ff [<- | [<- | []]]; vm_compute; reflexivity.
Defined.

(** X2.  When the metric of every entry is symmetric, so is [Difference]:
    exchanging the two elements changes neither the value returned nor the
    exception raised (a missing name raises the same [KeyError] from either
    side). *)
Theorem Difference_symmetric {T : Type} `{Numeric T}
    (fs : list (feature T)) (aa bb : gmap string (val T (list T)))
    (get_metrics : bool) :
  (forall ff, In ff fs -> symmetric_metric ff) ->
  Difference fs aa bb get_metrics = Difference fs bb aa get_metrics.
Proof.
  intros Hsym. apply Difference_ext. intros ff Hin.
  symmetry. apply entry_swap, Hsym, Hin.
Qed.

(** ** binary64: the absolute difference *)

Section Binary64Sub.
Open Scope float_scope.

(** Rounding treats the two signs alike. *)
Lemma SFabs_binary_round_aux (sx sy : bool) (m e : Z) (l : location) :
  SFabs (binary_round_aux prec emax sx m e l) =
  SFabs (binary_round_aux prec emax sy m e l).
Proof.
  unfold binary_round_aux.
  destruct (shr_fexp prec emax m e l) as [mrs' e'].
  destruct (shr_fexp prec emax _ e' loc_Exact) as [mrs'' e''].
  destruct (shr_m mrs'') as [|p|p]; try reflexivity.
  destruct (e'' <=? emax - prec)%Z; reflexivity.
Qed.

Lemma SFabs_binary_round (sx sy : bool) (m : positive) (e : Z) :
  SFabs (binary_round prec emax sx m e) =
  SFabs (binary_round prec emax sy m e).
Proof.
  unfold binary_round.
  destruct (shl_align m e _) as [mz ez]. apply SFabs_binary_round_aux.
Qed.

Lemma SFabs_binary_normalize_opp (m e : Z) :
  SFabs (binary_normalize prec emax (- m) e false) =
  SFabs (binary_normalize prec emax m e false).
Proof.
  destruct m as [|p|p]; simpl; try reflexivity; apply SFabs_binary_round.
Qed.

Lemma SFabs_SFsub_comm (x y : spec_float) :
  SFabs (SF64sub x y) = SFabs (SF64sub y x).
Proof.
  unfold SF64sub, SFsub.
  destruct x as [sx|sx| |sx mx ex], y as [sy|sy| |sy my ey];
    try (destruct sx, sy; reflexivity); try reflexivity.
  cbv zeta. rewrite (Z.min_comm ey ex).
  rewrite <- SFabs_binary_normalize_opp. f_equal. f_equal. lia.
Qed.

(** |x − y| and |y − x| are the same binary64 number, bit for bit. *)
Lemma float_abs_sub_comm (x y : float) : abs (x - y) = abs (y - x).
Proof.
  apply Prim2SF_inj. rewrite !abs_spec, !sub_spec. apply SFabs_SFsub_comm.
Qed.

(** A finite number minus itself is zero; an infinity or a NaN minus itself
    is NaN. *)
Lemma float_abs_sub_self (x : float) :
  abs (x - x) = if nan_or_inf x then nan else 0.
Proof.
  apply Prim2SF_inj. rewrite abs_spec, sub_spec.
  unfold nan_or_inf, is_nan, is_infinity.
  rewrite !FloatAxioms.eqb_spec, abs_spec.
  change (Prim2SF infinity) with (S754_infinity false).
  destruct (Prim2SF x) as [s|s| |s m e] eqn:Hx; cbn.
  - destruct s; reflexivity.
  - destruct s; reflexivity.
  - reflexivity.
  - rewrite Z.sub_diag, Z.compare_refl, Pcompare_refl.
    destruct s; simpl; reflexivity.
Qed.

End Binary64Sub.

(** ** ManhattanDistance *)

Section SwapFacts.
Context {T : Type} `{Numeric T}.

Lemma bind_assoc {A B C : Type} (r : result A) (f : A -> result B)
    (g : B -> result C) :
  (let* b := (let* a := r in f a) in g b) =
  (let* a := r in let* b := f a in g b).
Proof. destruct r; reflexivity. Qed.

Lemma map_combine_swap (u : T -> T) (xs ys : list T) :
  (forall x y, u (x - y)%num = u (y - x)%num) ->
  map u (map (fun p => (fst p - snd p)%num) (combine xs ys)) =
  map u (map (fun p => (fst p - snd p)%num) (combine ys xs)).
Proof.
  intros Hu. revert ys. induction xs as [|x xs IH]; intros [|y ys];
    simpl; try reflexivity.
  rewrite Hu, IH. reflexivity.
Qed.

Lemma map_scalar_swap (u : T -> T) (x : T) (ys : list T) :
  (forall x y, u (x - y)%num = u (y - x)%num) ->
  map u (map (num_sub x) ys) = map u (map (fun y => (y - x)%num) ys).
Proof.
  intros Hu. rewrite !map_map. apply map_ext. intros y. apply Hu.
Qed.

(** An even function of the difference does not see the order of the
    operands, broadcasting and exceptions included. *)
Lemma broadcast_ufunc_swap (u : T -> T) (a b : val T (list T)) :
  (forall x y, u (x - y)%num = u (y - x)%num) ->
  (let* d := broadcast num_sub a b in ufunc u d) =
  (let* d := broadcast num_sub b a in ufunc u d).
Proof.
  intros Hu. destruct a as [|x|s|xs], b as [|y|t|ys]; try reflexivity.
  - simpl. rewrite Hu. reflexivity.
  - simpl. rewrite (map_scalar_swap u x ys Hu). reflexivity.
  - simpl. rewrite (map_scalar_swap u y xs Hu). reflexivity.
  - unfold broadcast. rewrite (Nat.eqb_sym (length ys) (length xs)).
    destruct (Nat.eqb (length xs) (length ys)) eqn:Hlen.
    + simpl. rewrite (map_combine_swap u xs ys Hu). reflexivity.
    + destruct xs as [|x [|x2 xs]], ys as [|y [|y2 ys]];
        try discriminate Hlen; try reflexivity; simpl.
      * rewrite (Hu x y), (Hu x y2), (map_scalar_swap u x ys Hu).
        reflexivity.
      * rewrite (Hu y x), (Hu y x2), (map_scalar_swap u y xs Hu).
        reflexivity.
Qed.

Lemma ManhattanDistance_swap (a b : val T (list T)) :
  (forall x y, num_abs (x - y)%num = num_abs (y - x)%num) ->
  ManhattanDistance a b = ManhattanDistance b a.
Proof.
  intros Hu. unfold ManhattanDistance.
  rewrite <- !bind_assoc, (broadcast_ufunc_swap num_abs a b Hu). reflexivity.
Qed.

End SwapFacts.

Lemma ManhattanDistance_float_swap (array_sum : list float -> float)
    (a b : val float (list float)) :
  ManhattanDistance (H:=float_Numeric_with array_sum) a b =
  ManhattanDistance (H:=float_Numeric_with array_sum) b a.
Proof.
  apply (ManhattanDistance_swap (H:=float_Numeric_with array_sum)).
  intros x y. apply float_abs_sub_comm.
Qed.

Lemma ManhattanDistance_R_swap (a b : val R (list R)) :
  ManhattanDistance a b = ManhattanDistance b a.
Proof. apply ManhattanDistance_swap. intros x y. apply Rabs_minus_sym. Qed.

(** X3.  [ManhattanDistance] is symmetric in binary64, bit for bit and in
    whatever order [np.sum] adds, and over the reals: exchanging the two
    arguments changes neither the value nor the exception, scalars, arrays
    and broadcast pairs alike. *)
Theorem ManhattanDistance_symmetric :
  (forall (array_sum : list float -> float) (a b : val float (list float)),
     ManhattanDistance (H:=float_Numeric_with array_sum) a b =
     ManhattanDistance (H:=float_Numeric_with array_sum) b a) /\
  (forall a b : val R (list R),
     ManhattanDistance a b = ManhattanDistance b a).
Proof.
  split.
  - apply ManhattanDistance_float_swap.
  - apply ManhattanDistance_R_swap.
Qed.

Lemma Difference_symmetric_witness :
  Difference Examples.census Examples.alice Examples.bob true =
  Difference Examples.census Examples.bob Examples.alice true.
Proof.
  apply (Difference_symmetric Examples.census Examples.alice Examples.bob
           true).
  intros ff [<- | [<- | []]] va vb;
    apply (ManhattanDistance_float_swap float_seq_sum).
Defined.

(** X4.  On two binary64 scalars [ManhattanDistance] returns |a − b|, so the
    distance of a number to itself is 0.0 when the number is finite and NaN
    when it is an infinity or a NaN. *)
Theorem ManhattanDistance_self_float (array_sum : list float -> float)
    (x : float) :
  ManhattanDistance (H:=float_Numeric_with array_sum) (VNum x) (VNum x) =
  Ok (if nan_or_inf x then nan else 0%float).
Proof.
  unfold ManhattanDistance. simpl. rewrite float_abs_sub_self. reflexivity.
Qed.

(** ** Manhattan and Euclidean distance over the reals *)

Section RealMetrics.

Implicit Types (a b : val R (list R)) (xs ys zs : list R).

Lemma fold_left_Rplus_nonneg (l : list R) (acc : R) :
  (0 <= acc)%R -> Forall (fun x => (0 <= x)%R) l ->
  (0 <= fold_left Rplus l acc)%R.
Proof.
  revert acc. induction l as [|x l IH]; intros acc Hacc Hl; simpl.
  - exact Hacc.
  - inversion Hl; subst. apply IH; [lra | assumption].
Qed.

Lemma fold_left_Rplus_zeros (l : list R) (acc : R) :
  Forall (fun x => x = 0%R) l -> fold_left Rplus l acc = acc.
Proof.
  revert acc. induction l as [|x l IH]; intros acc Hl; simpl; [reflexivity|].
  inversion Hl; subst. rewrite IH by assumption. lra.
Qed.

Lemma Forall_map_diag (u : R -> R) xs :
  u 0%R = 0%R ->
  Forall (fun x => x = 0%R)
    (map u (map (fun p => (fst p - snd p)%R) (combine xs xs))).
Proof.
  intros Hu. induction xs as [|x xs IH]; simpl; constructor; [|exact IH].
  replace (x - x)%R with 0%R by lra. exact Hu.
Qed.

Lemma l1_distance_cons (x y : R) xs ys :
  l1_distance (x :: xs) (y :: ys) = (Rabs (x - y) + l1_distance xs ys)%R.
Proof.
  unfold l1_distance. simpl. rewrite fold_left_Rplus_acc. lra.
Qed.

Lemma l1_distance_triangle xs ys zs :
  length xs = length ys -> length ys = length zs ->
  (l1_distance xs zs <= l1_distance xs ys + l1_distance ys zs)%R.
Proof.
  revert ys zs. induction xs as [|x xs IH]; intros [|y ys] [|z zs] Hxy Hyz;
    try discriminate.
  - unfold l1_distance. simpl. lra.
  - rewrite !l1_distance_cons.
    assert (Ht : (Rabs (x - z) <= Rabs (x - y) + Rabs (y - z))%R).
    { replace (x - z)%R with ((x - y) + (y - z))%R by lra.
      apply Rabs_triang. }
    simpl in Hxy, Hyz. specialize (IH ys zs ltac:(lia) ltac:(lia)). lra.
Qed.

Lemma ManhattanDistance_VArr xs ys :
  length xs = length ys ->
  ManhattanDistance (VArr xs) (VArr ys) = Ok (l1_distance xs ys).
Proof.
  intros Hlen. unfold ManhattanDistance, broadcast.
  rewrite Hlen, Nat.eqb_refl. simpl. rewrite map_map. reflexivity.
Qed.

Lemma ManhattanDistance_R_nonneg a b (d : R) :
  ManhattanDistance a b = Ok d -> (0 <= d)%R.
Proof.
  unfold ManhattanDistance.
  destruct (broadcast num_sub a b) as [[|x|s|l]|e]; simpl; try discriminate.
  - intros [= <-]. apply Rabs_pos.
  - intros [= <-]. apply fold_left_Rplus_nonneg; [lra|].
    induction l as [|x l IH]; simpl; constructor; [apply Rabs_pos | exact IH].
Qed.

Lemma ManhattanDistance_R_self a :
  is_numeric a -> ManhattanDistance a a = Ok 0%R.
Proof.
  destruct a as [|x|s|xs]; simpl; try contradiction; intros _.
  - unfold ManhattanDistance. simpl. f_equal.
    replace (x - x)%R with 0%R by lra. apply Rabs_R0.
  - unfold ManhattanDistance, broadcast. rewrite Nat.eqb_refl. simpl.
    f_equal. apply fold_left_Rplus_zeros, Forall_map_diag, Rabs_R0.
Qed.

Lemma square_R_swap (x y : R) : square (x - y)%num = square (y - x)%num.
Proof. unfold square. simpl. ring. Qed.

Lemma EuclideanDistance_R_swap a b :
  EuclideanDistance a b = EuclideanDistance b a.
Proof.
  unfold EuclideanDistance.
  rewrite <- !bind_assoc.
  rewrite (broadcast_ufunc_swap square a b square_R_swap). reflexivity.
Qed.

End RealMetrics.

(** X5.  Over the reals [ManhattanDistance] is a metric where it returns:
    what it returns is never negative; a number or an array is at distance 0
    from itself; on arrays of one length it returns Σ |aᵢ − bᵢ|, which
    satisfies the triangle inequality. *)
Theorem ManhattanDistance_real_metric :
  (forall (a b : val R (list R)) (d : R),
     ManhattanDistance a b = Ok d -> (0 <= d)%R) /\
  (forall a : val R (list R),
     is_numeric a -> ManhattanDistance a a = Ok 0%R) /\
  (forall xs ys zs : list R,
     length xs = length ys -> length ys = length zs ->
     ManhattanDistance (VArr xs) (VArr ys) = Ok (l1_distance xs ys) /\
     ManhattanDistance (VArr ys) (VArr zs) = Ok (l1_distance ys zs) /\
     ManhattanDistance (VArr xs) (VArr zs) = Ok (l1_distance xs zs) /\
     (l1_distance xs zs <= l1_distance xs ys + l1_distance ys zs)%R).
Proof.
  split; [|split].
  - apply ManhattanDistance_R_nonneg.
  - apply ManhattanDistance_R_self.
  - intros xs ys zs Hxy Hyz. repeat split.
    + apply ManhattanDistance_VArr, Hxy.
    + apply ManhattanDistance_VArr, Hyz.
    + apply ManhattanDistance_VArr. congruence.
    + apply l1_distance_triangle; assumption.
Qed.

Lemma ManhattanDistance_real_metric_witness :
  (0 <= Rabs (1 - 4))%R /\
  ManhattanDistance (VArr [1%R; 2%R]) (VArr [1%R; 2%R]) = Ok 0%R /\
  (l1_distance [1%R; 2%R] [5%R; 5%R] <=
   l1_distance [1%R; 2%R] [3%R; 0%R] + l1_distance [3%R; 0%R] [5%R; 5%R])%R.
Proof.
  destruct ManhattanDistance_real_metric as (Hpos & Hself & Htri).
  split; [|split].
  - apply (Hpos (VNum 1%R) (VNum 4%R)). reflexivity.
  - apply (Hself (VArr [1%R; 2%R])). exact I.
  - apply (Htri [1%R; 2%R] [3%R; 0%R] [5%R; 5%R]); reflexivity.
Defined.

Section RealEuclid.

Implicit Types (a b : val R (list R)) (xs ys : list R).

Lemma square_R_zero : square 0%R = 0%R.
Proof. unfold square. simpl. ring. Qed.

Lemma EuclideanDistance_VArr xs ys :
  length xs = length ys ->
  EuclideanDistance (VArr xs) (VArr ys) = Ok (l2_distance xs ys).
Proof.
  intros Hlen. unfold EuclideanDistance, broadcast.
  rewrite Hlen, Nat.eqb_refl. simpl. rewrite map_map. reflexivity.
Qed.

Lemma EuclideanDistance_VNum (x y : R) :
  EuclideanDistance (VNum x) (VNum y) = Ok (Rabs (x - y)).
Proof.
  unfold EuclideanDistance. simpl. f_equal. apply sqrt_Rsqr_abs.
Qed.

Lemma EuclideanDistance_R_nonneg a b (d : R) :
  EuclideanDistance a b = Ok d -> (0 <= d)%R.
Proof.
  unfold EuclideanDistance.
  destruct (broadcast num_sub a b) as [[|x|s|l]|e]; simpl; try discriminate;
    intros [= <-]; apply sqrt_pos.
Qed.

Lemma EuclideanDistance_R_self a :
  is_numeric a -> EuclideanDistance a a = Ok 0%R.
Proof.
  destruct a as [|x|s|xs]; simpl; try contradiction; intros _.
  - rewrite EuclideanDistance_VNum. f_equal.
    replace (x - x)%R with 0%R by lra. apply Rabs_R0.
  - unfold EuclideanDistance, broadcast. rewrite Nat.eqb_refl. simpl.
    f_equal.
    rewrite (fold_left_Rplus_zeros _ 0%R
               (Forall_map_diag square xs square_R_zero)).
    apply sqrt_0.
Qed.

End RealEuclid.

(** X6.  Over the reals [EuclideanDistance] is symmetric, exceptions
    included; what it returns is never negative; a number or an array is at
    distance 0 from itself; on two numbers it returns |a − b| and on arrays
    of one length sqrt(Σ (aᵢ − bᵢ)²). *)
Theorem EuclideanDistance_real_metric :
  (forall a b : val R (list R),
     EuclideanDistance a b = EuclideanDistance b a) /\
  (forall (a b : val R (list R)) (d : R),
     EuclideanDistance a b = Ok d -> (0 <= d)%R) /\
  (forall a : val R (list R),
     is_numeric a -> EuclideanDistance a a = Ok 0%R) /\
  (forall x y : R,
     EuclideanDistance (VNum x) (VNum y) = Ok (Rabs (x - y))) /\
  (forall xs ys : list R,
     length xs = length ys ->
     EuclideanDistance (VArr xs) (VArr ys) = Ok (l2_distance xs ys)).
Proof.
  split; [|split; [|split; [|split]]].
  - apply EuclideanDistance_R_swap.
  - apply EuclideanDistance_R_nonneg.
  - apply EuclideanDistance_R_self.
  - apply EuclideanDistance_VNum.
  - apply EuclideanDistance_VArr.
Qed.

Lemma EuclideanDistance_real_metric_witness :
  (0 <= Rabs (1 - 4))%R /\
  EuclideanDistance (VArr [1%R; 2%R]) (VArr [1%R; 2%R]) = Ok 0%R /\
  EuclideanDistance (VArr [0%R; 0%R]) (VArr [3%R; 4%R])
    = Ok (l2_distance [0%R; 0%R] [3%R; 4%R]).
Proof.
  destruct EuclideanDistance_real_metric as (_ & Hpos & Hself & Hnum & Harr).
  split; [|split].
  - apply (Hpos (VNum 1%R) (VNum 4%R)). apply Hnum.
  - apply (Hself (VArr [1%R; 2%R])). exact I.
  - apply (Harr [0%R; 0%R] [3%R; 4%R]). reflexivity.
Defined.

(** ** HellingerDistance: arguments it rejects *)

Section HellingerErrors.
Context {T : Type} `{Numeric T}.

(** The index loop stops with [IndexError] at the first index the second
    array does not have. *)
Lemma Hellinger_loop_short (aa bb : list T) (n lo : nat) (bc : T) :
  (lo <= length bb)%nat -> (length bb < lo + n)%nat ->
  (lo + n <= length aa)%nat ->
  Hellinger_loop (VArr aa) (VArr bb) lo n bc = Raise IndexError.
Proof.
  revert lo bc. induction n as [|n IH]; intros lo bc Hlo Hshort Hlen.
  - lia.
  - destruct (lookup_lt_is_Some_2 aa lo) as [ai Hai]; [lia|].
    simpl. rewrite Hai. simpl.
    destruct (bb !! lo) as [bi|] eqn:Hbi; simpl; [|reflexivity].
    apply lookup_lt_Some in Hbi. apply IH; lia.
Qed.

End HellingerErrors.

(** X7.  [HellingerDistance] treats its two arguments differently: a second
    array that is shorter than the first is rejected with [IndexError],
    raised by [bb[i]] in the loop, while the same two arrays in the other
    order are accepted, the extra elements of the longer one entering its sum
    only; and a first argument that is a number is rejected with
    [TypeError], as the normalized number has no [len]. *)
Theorem HellingerDistance_rejects {T : Type} `{Numeric T} :
  (forall xs ys : list T,
     (length ys < length xs)%nat ->
     HellingerDistance (VArr xs) (VArr ys) = Raise IndexError /\
     HellingerDistance (VArr ys) (VArr xs) =
       Ok (num_sqrt (num_one - Bhattacharyya ys xs)%num)) /\
  (forall (x : T) (b : val T (list T)),
     HellingerDistance (VNum x) b = Raise TypeError).
Proof.
  split.
  - intros xs ys Hlen. split.
    + unfold HellingerDistance.
      rewrite !normalize_VArr. simpl.
      rewrite (Hellinger_loop_short (normalized xs) (normalized ys)
                 (length (normalized xs)) 0 num_zero);
        unfold normalized; rewrite ?length_map; try lia. reflexivity.
    + apply HellingerDistance_spec. lia.
  - intros x b. unfold HellingerDistance, normalize.
    destruct b as [|y|s|ys]; reflexivity.
Qed.

Lemma HellingerDistance_rejects_witness :
  HellingerDistance (VArr [1%float; 2%float; 3%float])
                    (VArr [1%float; 2%float]) = Raise IndexError /\
  HellingerDistance (VArr [1%float; 2%float])
                    (VArr [1%float; 2%float; 3%float]) =
    Ok (num_sqrt
          (num_one - Bhattacharyya [1%float; 2%float]
                                   [1%float; 2%float; 3%float])%num).
Proof.
  apply (proj1 HellingerDistance_rejects
           [1%float; 2%float; 3%float] [1%float; 2%float]).
  simpl. lia.
Defined.

(** ** HellingerDistance over the reals *)

Section RealHellinger.

Implicit Types (xs ys : list R).

Lemma fold_left_Rplus_div xs (S : R) :
  fold_left Rplus (map (fun x => (x / S)%R) xs) 0%R =
  (fold_left Rplus xs 0 / S)%R.
Proof.
  induction xs as [|x xs IH]; simpl.
  - unfold Rdiv. ring.
  - rewrite fold_left_Rplus_acc, IH, (fold_left_Rplus_acc xs (0 + x)%R).
    unfold Rdiv. ring.
Qed.

Lemma map_sqrt_diag (l : list R) :
  Forall (fun x => (0 <= x)%R) l ->
  map (fun p => sqrt (fst p * snd p)) (combine l l) = l.
Proof.
  induction 1 as [|x l Hx _ IH]; simpl; [reflexivity|].
  rewrite IH. f_equal. apply sqrt_square, Hx.
Qed.

Lemma normalized_nonneg xs :
  Forall (fun x => (0 <= x)%R) xs -> (0 < num_sum xs)%R ->
  Forall (fun x => (0 <= x)%R) (normalized xs).
Proof.
  intros Hxs Hsum. unfold normalized. generalize dependent (num_sum xs).
  intros S HS.
  induction Hxs as [|x l Hx _ IH]; simpl; constructor; [|exact IH].
  unfold Rdiv. apply Rmult_le_pos; [exact Hx|].
  left. apply Rinv_0_lt_compat, HS.
Qed.

(** In exact arithmetic the coefficient of a histogram with itself is 1. *)
Lemma Bhattacharyya_R_self xs :
  Forall (fun x => (0 <= x)%R) xs -> (0 < num_sum xs)%R ->
  Bhattacharyya xs xs = 1%R.
Proof.
  intros Hxs Hsum. unfold Bhattacharyya, seq_sum. simpl.
  rewrite (map_sqrt_diag _ (normalized_nonneg xs Hxs Hsum)).
  unfold normalized. simpl in *. rewrite fold_left_Rplus_div.
  field. lra.
Qed.

Lemma Bhattacharyya_R_nonneg xs ys : (0 <= Bhattacharyya xs ys)%R.
Proof.
  unfold Bhattacharyya, seq_sum. simpl.
  apply fold_left_Rplus_nonneg; [lra|].
  induction (combine (normalized xs) (normalized ys)) as [|p l IH]; simpl;
    constructor; [apply sqrt_pos | exact IH].
Qed.

Lemma combine_swap_map {A : Type} (f : R * R -> A) (l k : list R) :
  (forall x y, f (x, y) = f (y, x)) ->
  map f (combine l k) = map f (combine k l).
Proof.
  intros Hf. revert k. induction l as [|x l IH]; intros [|y k]; simpl;
    try reflexivity.
  rewrite Hf, IH. reflexivity.
Qed.

Lemma Bhattacharyya_R_swap xs ys : Bhattacharyya xs ys = Bhattacharyya ys xs.
Proof.
  unfold Bhattacharyya. f_equal. apply combine_swap_map.
  intros x y. simpl. rewrite Rmult_comm. reflexivity.
Qed.

End RealHellinger.

(** ** The weighted mean over the reals *)

Section RealMean.

Implicit Types (fs : list (feature R)) (ms ws : list R)
  (aa bb : gmap string (val R (list R))).

Lemma seq_sum_R_cons (x : R) (l : list R) :
  seq_sum (x :: l) = (x + seq_sum l)%R.
Proof.
  unfold seq_sum. simpl. rewrite fold_left_Rplus_acc. lra.
Qed.

Lemma seq_sum_R_nil : seq_sum (T:=R) [] = 0%R.
Proof. reflexivity. Qed.

(** Σ mᵢ·wᵢ lies between lo·Σ wᵢ and hi·Σ wᵢ. *)
Lemma weighted_sum_bounds (lo hi : R) ms ws :
  length ms = length ws ->
  Forall (fun m => (lo <= m <= hi)%R) ms ->
  Forall (fun w => (0 <= w)%R) ws ->
  (lo * seq_sum ws <= seq_sum (np_mul ms ws) <= hi * seq_sum ws)%R.
Proof.
  revert ws. induction ms as [|m ms IH]; intros [|w ws] Hlen Hms Hws;
    try discriminate.
  - unfold np_mul. simpl. rewrite seq_sum_R_nil. lra.
  - inversion Hms as [|? ? Hm Hms']; inversion Hws as [|? ? Hw Hws']; subst.
    unfold np_mul in *. simpl. rewrite !seq_sum_R_cons.
    specialize (IH ws ltac:(simpl in Hlen; lia) Hms' Hws').
    change (zip_with num_mul ms ws) with (zip_with Rmult ms ws) in IH.
    assert (H1 : (lo * w <= m * w)%R) by (apply Rmult_le_compat_r; lra).
    assert (H2 : (m * w <= hi * w)%R) by (apply Rmult_le_compat_r; lra).
    lra.
Qed.

Lemma weighted_mean_bounds (lo hi : R) ms ws :
  length ms = length ws ->
  Forall (fun m => (lo <= m <= hi)%R) ms ->
  Forall (fun w => (0 <= w)%R) ws ->
  (0 < seq_sum ws)%R ->
  (lo <= weighted_mean ms ws <= hi)%R.
Proof.
  intros Hlen Hms Hws Hpos.
  pose proof (weighted_sum_bounds lo hi ms ws Hlen Hms Hws) as [Hlo Hhi].
  unfold weighted_mean. simpl. split.
  - apply Rmult_le_reg_r with (seq_sum ws); [exact Hpos|].
    unfold Rdiv. rewrite Rmult_assoc, Rinv_l by lra. lra.
  - apply Rmult_le_reg_r with (seq_sum ws); [exact Hpos|].
    unfold Rdiv. rewrite Rmult_assoc, Rinv_l by lra. lra.
Qed.

Lemma seq_sum_R_scale (c : R) (l : list R) :
  seq_sum (map (Rmult c) l) = (c * seq_sum l)%R.
Proof.
  induction l as [|x l IH]; simpl.
  - rewrite seq_sum_R_nil. lra.
  - rewrite !seq_sum_R_cons, IH. lra.
Qed.

Lemma np_mul_R_scale (c : R) ms ws :
  np_mul ms (map (Rmult c) ws) = map (Rmult c) (np_mul ms ws).
Proof.
  unfold np_mul. revert ws. induction ms as [|m ms IH]; intros [|w ws];
    simpl; try reflexivity.
  rewrite IH. f_equal. ring.
Qed.

Lemma weighted_mean_scale (c : R) ms ws :
  c <> 0%R -> seq_sum ws <> 0%R ->
  weighted_mean ms (map (Rmult c) ws) = weighted_mean ms ws.
Proof.
  intros Hc Hs. unfold weighted_mean.
  rewrite np_mul_R_scale, !seq_sum_R_scale. simpl. field. auto.
Qed.

Lemma map_weight_scale (c : R) fs :
  map weight (scale_weights c fs) = map (Rmult c) (map weight fs).
Proof. unfold scale_weights. rewrite !map_map. reflexivity. Qed.

Lemma per_feature_scale (c : R) fs aa bb ms :
  Forall2 (per_feature aa bb) fs ms ->
  Forall2 (per_feature aa bb) (scale_weights c fs) ms.
Proof.
  induction 1 as [|ff m fs ms Hm _ IH]; simpl; constructor; [|exact IH].
  exact Hm.
Qed.

Lemma Difference_loop_Raise_scale (c : R) fs aa bb e :
  Difference_loop fs aa bb [] [] = Raise e ->
  Difference_loop (scale_weights c fs) aa bb [] [] = Raise e.
Proof.
  intros Hl. apply Difference_loop_Raise in Hl
    as (fs1 & ff & fs2 & ms1 & -> & HF & He).
  apply Difference_loop_Raise.
  exists (scale_weights c fs1),
    {| name := name ff; proto := proto ff; metric := metric ff;
       remap := remap ff; range := range ff;
       weight := (c * weight ff)%R |},
    (scale_weights c fs2), ms1.
  split; [|split].
  - unfold scale_weights. rewrite map_app. reflexivity.
  - apply per_feature_scale, HF.
  - exact He.
Qed.

End RealMean.

(** X9.  Over the reals, when no weight is negative and the weights have a
    positive total, the aggregate that [Difference] returns lies between any
    two bounds that hold for every per-feature metric: with metrics remapped
    into [0, 1] the aggregate is in [0, 1]. *)
Theorem Difference_within_metric_bounds
    (fs : list (feature R)) (aa bb : gmap string (val R (list R)))
    (dd lo hi : R) (ms : list R) :
  Difference fs aa bb true = Ok (WithMetrics dd ms) ->
  Forall (fun ff => (0 <= weight ff)%R) fs ->
  (0 < seq_sum (map weight fs))%R ->
  Forall (fun m => (lo <= m <= hi)%R) ms ->
  (lo <= dd <= hi)%R.
Proof.
  intros Hd Hw Hpos Hms.
  apply Difference_Ok_inv in Hd as (_ & ms0 & HF & Heq).
  simpl in Heq. injection Heq as -> ->.
  apply weighted_mean_bounds; try assumption.
  - rewrite length_map. symmetry. eapply Forall2_length, HF.
  - clear -Hw. induction Hw; simpl; constructor; assumption.
Qed.

Lemma Difference_within_metric_bounds_witness :
  (0 <= weighted_mean [Rabs (1 - 4); Rabs (5 - 3)] [1%R; 2%R] <= 3)%R.
Proof.
  apply (Difference_within_metric_bounds OrderExamples.uv OrderExamples.here
           OrderExamples.there _ 0%R 3%R [Rabs (1 - 4); Rabs (5 - 3)]).
  - apply (Difference_nonempty OrderExamples.uv OrderExamples.here
             OrderExamples.there [Rabs (1 - 4); Rabs (5 - 3)] true).
    + discriminate.
    + repeat constructor; apply entry_Ok; reflexivity.
  - repeat (apply List.Forall_cons; [simpl; lra|]). apply List.Forall_nil.
  - unfold seq_sum. simpl. lra.
  - repeat (apply List.Forall_cons;
              [split; [apply Rabs_pos | apply Rabs_le; lra]|]).
    apply List.Forall_nil.
Defined.

(** X10.  Over the reals the weights are relative: multiplying every weight
    of a registry by one non-zero number changes nothing in what
    [Difference] returns or raises, as long as the weights do not sum to
    zero. *)
Theorem Difference_weights_relative
    (c : R) (fs : list (feature R)) (aa bb : gmap string (val R (list R)))
    (get_metrics : bool) :
  c <> 0%R -> seq_sum (map weight fs) <> 0%R ->
  Difference (scale_weights c fs) aa bb get_metrics =
  Difference fs aa bb get_metrics.
Proof.
  intros Hc Hs. destruct fs as [|ff rest]; [reflexivity|].
  destruct (Difference_loop (ff :: rest) aa bb [] []) as [[ms ws]|e] eqn:Hl.
  - apply Difference_loop_Ok in Hl as (ms1 & HF & _ & _).
    rewrite (Difference_nonempty (ff :: rest) aa bb ms1 get_metrics)
      by (auto; discriminate).
    rewrite (Difference_nonempty (scale_weights c (ff :: rest)) aa bb ms1
               get_metrics)
      by (try discriminate; apply per_feature_scale, HF).
    rewrite map_weight_scale, (weighted_mean_scale c ms1 _ Hc Hs).
    reflexivity.
  - pose proof (Difference_loop_Raise_scale c _ aa bb e Hl) as Hl'.
    unfold Difference. rewrite Hl, Hl'. reflexivity.
Qed.

Lemma Difference_weights_relative_witness :
  Difference (scale_weights 10 OrderExamples.uv) OrderExamples.here
    OrderExamples.there true =
  Difference OrderExamples.uv OrderExamples.here OrderExamples.there true.
Proof.
  apply (Difference_weights_relative 10 OrderExamples.uv OrderExamples.here
           OrderExamples.there true).
  - lra.
  - unfold seq_sum. simpl. lra.
Defined.

(** X11.  [LinearRemap(d, r)] on two binary64 numbers.  When both are
    Python floats and [r] is a zero, the division raises
    [ZeroDivisionError].  In every other case the call returns, and never
    more than 1.0: what it returns is NaN exactly when d / r is NaN, and
    otherwise at most 1.0; it is d / r when that is below 1.0 and exactly
    1.0 as soon as d / r reaches 1.0. *)
Theorem LinearRemap_float_at_most_one (kd kr : number_kind) (d r : float) :
  let q := PrimFloat.div d r in
  (kd = PyFloat -> kr = PyFloat -> PrimFloat.eqb r 0 = true ->
   LinearRemap_call kd kr d r = Raise ZeroDivisionError) /\
  (kd = NpFloat64 \/ kr = NpFloat64 \/ PrimFloat.eqb r 0 = false ->
   exists v,
     LinearRemap_call kd kr d r = Ok v /\
     (PrimFloat.is_nan q = true -> PrimFloat.is_nan v = true) /\
     (PrimFloat.is_nan q = false -> PrimFloat.leb v 1 = true) /\
     (PrimFloat.ltb q 1 = true -> v = q) /\
     (PrimFloat.leb 1 q = true -> v = 1%float)).
Proof.
  intros q. split.
  - intros -> -> Hr. unfold LinearRemap_call, scalar_truediv.
    rewrite Hr. reflexivity.
  - intros Hk. exists (float_minimum q 1). split.
    + unfold LinearRemap_call.
      rewrite (scalar_truediv_returns kd kr d r Hk). reflexivity.
    + apply float_minimum_one.
Qed.

Lemma LinearRemap_float_at_most_one_witness :
  LinearRemap_call PyFloat PyFloat 1 0 = Raise ZeroDivisionError /\
  LinearRemap_call PyFloat PyFloat 1 (-0) = Raise ZeroDivisionError /\
  exists v,
    LinearRemap_call NpFloat64 PyFloat 1 0 = Ok v /\ v = 1%float.
Proof.
  split; [|split].
  - apply (LinearRemap_float_at_most_one PyFloat PyFloat 1 0);
      reflexivity.
  - apply (LinearRemap_float_at_most_one PyFloat PyFloat 1 (-0));
      reflexivity.
  - destruct (LinearRemap_float_at_most_one NpFloat64 PyFloat 1 0)
      as (_ & Hret).
    destruct (Hret (or_introl eq_refl)) as (v & Hv & _ & _ & _ & Hsat).
    exists v. split; [exact Hv|]. apply Hsat. vm_compute. reflexivity.
Defined.

(** ** DiscreteDistance *)

Lemma py_eq_sym (a b : scalar) : py_eq a b = py_eq b a.
Proof.
  destruct a as [|x|s|[]], b as [|y|t|[]]; simpl; try reflexivity.
  - apply float_eqb_sym.
  - apply String.eqb_sym.
Qed.

(** X12.  On values that are None, a number or a string [DiscreteDistance]
    returns 0.0 or 1.0 and is symmetric; two strings are at distance 0.0
    exactly when they are the same string; values of two kinds are at
    distance 1.0; and a value is at distance 0.0 from itself unless it is a
    NaN, which is at distance 1.0 from itself. *)
Theorem DiscreteDistance_laws (a b : scalar) :
  (DiscreteDistance a b = 0%float \/ DiscreteDistance a b = 1%float) /\
  DiscreteDistance a b = DiscreteDistance b a /\
  (forall s t : string,
     DiscreteDistance (VStr s) (VStr t) = 0%float <-> s = t) /\
  DiscreteDistance a a =
    match a with
    | VNum x => if PrimFloat.is_nan x then 1%float else 0%float
    | _ => 0%float
    end.
Proof.
  unfold DiscreteDistance. split; [|split; [|split]].
  - destruct (py_eq a b); auto.
  - rewrite (py_eq_sym a b). reflexivity.
  - intros s t. simpl. destruct (String.eqb s t) eqn:Heq.
    + apply String.eqb_eq in Heq. tauto.
    + apply String.eqb_neq in Heq. split; [|tauto].
      intros Hd. apply (f_equal PrimFloat.is_zero) in Hd.
      vm_compute in Hd. discriminate.
  - destruct a as [|x|s|[]]; simpl; try reflexivity.
    + unfold PrimFloat.is_nan. destruct (PrimFloat.eqb x x); reflexivity.
    + rewrite String.eqb_refl. reflexivity.
Qed.

Lemma DiscreteDistance_laws_witness :
  DiscreteDistance (VStr "X") (VStr "X") = 0%float /\
  DiscreteDistance (VStr "X") (VStr "Y") =
    DiscreteDistance (VStr "Y") (VStr "X").
Proof.
  destruct (DiscreteDistance_laws (VStr "X") (VStr "Y"))
    as (_ & Hsym & Hstr & _).
  split; [apply (proj2 (Hstr "X" "X")); reflexivity | exact Hsym].
Defined.

(** ** CosineDistance over the reals *)

Section RealCosine.

Implicit Types (xs ys : list R).

Lemma Rdot_cons (x y : R) xs ys :
  num_dot (x :: xs) (y :: ys) = (x * y + num_dot xs ys)%R.
Proof. simpl. rewrite fold_left_Rplus_acc. lra. Qed.

Lemma Rdot_nil_l ys : num_dot (T:=R) [] ys = 0%R.
Proof. reflexivity. Qed.

Lemma Rdot_nil_r xs : num_dot xs [] = 0%R.
Proof. destruct xs; reflexivity. Qed.

Lemma Rdot_comm xs ys : num_dot xs ys = num_dot ys xs.
Proof.
  revert ys. induction xs as [|x xs IH]; intros [|y ys];
    rewrite ?Rdot_nil_l, ?Rdot_nil_r, ?Rdot_cons; try reflexivity.
  rewrite IH. lra.
Qed.

Lemma Rdot_self_nonneg xs : (0 <= num_dot xs xs)%R.
Proof.
  induction xs as [|x xs IH]; [rewrite Rdot_nil_l; lra|].
  rewrite Rdot_cons. pose proof (Rle_0_sqr x) as Hx. unfold Rsqr in Hx. lra.
Qed.

(** One more coordinate keeps the Cauchy–Schwarz inequality. *)
Lemma cauchy_schwarz_step (x y A B C : R) :
  (0 <= A)%R -> (0 <= C)%R -> (B * B <= A * C)%R ->
  ((x * y + B) * (x * y + B) <= (x * x + A) * (y * y + C))%R.
Proof.
  intros HA HC HB.
  assert (H2 : (2 * (x * y) * B <= x * x * C + A * (y * y))%R).
  { pose proof (sqrt_pos A) as HsA. pose proof (sqrt_pos C) as HsC.
    pose proof (sqrt_sqrt A HA) as HA2. pose proof (sqrt_sqrt C HC) as HC2.
    set (sa := sqrt A) in *. set (sc := sqrt C) in *.
    assert (HBabs : (Rabs B <= sa * sc)%R).
    { assert (Hsq : (B * B <= (sa * sc) * (sa * sc))%R) by nra.
      rewrite <- (Rabs_pos_eq (sa * sc)) by (apply Rmult_le_pos; assumption).
      apply Rsqr_le_abs_0. unfold Rsqr. exact Hsq. }
    assert (Hxy : (Rabs (x * y) * Rabs B <= Rabs (x * y) * (sa * sc))%R).
    { apply Rmult_le_compat_l; [apply Rabs_pos | exact HBabs]. }
    assert (Hle : (x * y * B <= Rabs (x * y) * Rabs B)%R).
    { rewrite <- Rabs_mult. apply Rle_abs. }
    assert (Ham : (2 * (Rabs (x * y) * (sa * sc))
                   <= x * x * C + A * (y * y))%R).
    { rewrite Rabs_mult.
      assert (Hx2 : (Rabs x * Rabs x = x * x)%R)
        by (rewrite <- Rabs_mult; apply Rabs_pos_eq, Rle_0_sqr).
      assert (Hy2 : (Rabs y * Rabs y = y * y)%R)
        by (rewrite <- Rabs_mult; apply Rabs_pos_eq, Rle_0_sqr).
      rewrite <- Hx2, <- Hy2, <- HA2, <- HC2.
      pose proof (Rle_0_sqr (Rabs x * sc - Rabs y * sa)) as Hsq.
      unfold Rsqr in Hsq. lra. }
    lra. }
  nra.
Qed.

Lemma cauchy_schwarz xs ys :
  (num_dot xs ys * num_dot xs ys <= num_dot xs xs * num_dot ys ys)%R.
Proof.
  revert ys. induction xs as [|x xs IH]; intros [|y ys];
    rewrite ?Rdot_nil_l, ?Rdot_nil_r; try lra.
  rewrite !Rdot_cons.
  apply cauchy_schwarz_step; [apply Rdot_self_nonneg.. | apply IH].
Qed.

(** The cosine of two vectors of non-zero norm lies in [−1, 1]. *)
Lemma cosine_bounds (A B C : R) :
  (0 < A)%R -> (0 < C)%R -> (B * B <= A * C)%R ->
  (-1 <= B / sqrt A / sqrt C <= 1)%R.
Proof.
  intros HA HC HB.
  pose proof (sqrt_lt_R0 A HA) as HsA. pose proof (sqrt_lt_R0 C HC) as HsC.
  pose proof (sqrt_sqrt A ltac:(lra)) as HA2.
  pose proof (sqrt_sqrt C ltac:(lra)) as HC2.
  set (sa := sqrt A) in *. set (sc := sqrt C) in *.
  assert (Hp : (0 < sa * sc)%R) by (apply Rmult_lt_0_compat; assumption).
  assert (HBabs : (Rabs B <= sa * sc)%R).
  { assert (Hsq : (B * B <= (sa * sc) * (sa * sc))%R) by nra.
    rewrite <- (Rabs_pos_eq (sa * sc)) by lra.
    apply Rsqr_le_abs_0. unfold Rsqr. exact Hsq. }
  pose proof (Rle_abs B) as Hb1. pose proof (Rle_abs (- B)) as Hb2.
  rewrite Rabs_Ropp in Hb2.
  replace (B / sa / sc)%R with (B / (sa * sc))%R by (field; lra).
  split.
  - apply Rmult_le_reg_r with (sa * sc)%R; [exact Hp|].
    unfold Rdiv. rewrite Rmult_assoc, Rinv_l by lra. lra.
  - apply Rmult_le_reg_r with (sa * sc)%R; [exact Hp|].
    unfold Rdiv. rewrite Rmult_assoc, Rinv_l by lra. lra.
Qed.

Lemma CosineDistance_R_eq xs ys :
  length xs = length ys ->
  CosineDistance xs ys =
  Ok (1 - num_dot xs ys / sqrt (num_dot xs xs) / sqrt (num_dot ys ys))%R.
Proof.
  intros Hlen. unfold CosineDistance, np_dot.
  rewrite Hlen, Nat.eqb_refl. reflexivity.
Qed.

End RealCosine.

(** X13.  [CosineDistance] on two arrays: lengths that differ raise
    [ValueError]; over the reals, arrays of one length get a distance that is
    the same in both orders and lies in [0, 2] when neither norm is zero; and
    an array of non-zero norm is at distance 0 from itself. *)
Theorem CosineDistance_real (xs ys : list R) :
  (length xs <> length ys -> CosineDistance xs ys = Raise ValueError) /\
  (length xs = length ys ->
   exists d : R,
     CosineDistance xs ys = Ok d /\ CosineDistance ys xs = Ok d /\
     ((0 < num_dot xs xs)%R -> (0 < num_dot ys ys)%R -> (0 <= d <= 2)%R)) /\
  ((0 < num_dot xs xs)%R -> CosineDistance xs xs = Ok 0%R).
Proof.
  split; [|split].
  - intros Hlen. unfold CosineDistance, np_dot.
    apply Nat.eqb_neq in Hlen. rewrite Hlen. reflexivity.
  - intros Hlen. eexists. split; [apply CosineDistance_R_eq, Hlen|]. split.
    + rewrite (CosineDistance_R_eq ys xs) by congruence.
      rewrite (Rdot_comm ys xs). f_equal. unfold Rdiv. ring.
    + intros HA HC.
      pose proof (cosine_bounds _ _ _ HA HC (cauchy_schwarz xs ys)) as Hq.
      lra.
  - intros HA. rewrite (CosineDistance_R_eq xs xs) by reflexivity. f_equal.
    pose proof (sqrt_lt_R0 _ HA) as Hs.
    pose proof (sqrt_sqrt _ (Rlt_le _ _ HA)) as Hsq.
    set (s := sqrt (num_dot xs xs)) in *. rewrite <- Hsq. field. lra.
Qed.

Lemma CosineDistance_real_witness :
  CosineDistance [1%R; 0%R] [1%R; 2%R; 3%R] = Raise ValueError /\
  CosineDistance [3%R; 4%R] [3%R; 4%R] = Ok 0%R /\
  exists d : R,
    CosineDistance [1%R; 0%R] [0%R; 1%R] = Ok d /\
    CosineDistance [0%R; 1%R] [1%R; 0%R] = Ok d /\ (0 <= d <= 2)%R.
Proof.
  split; [|split].
  - apply (CosineDistance_real [1%R; 0%R] [1%R; 2%R; 3%R]). simpl. lia.
  - apply (CosineDistance_real [3%R; 4%R] [3%R; 4%R]). simpl. lra.
  - destruct (CosineDistance_real [1%R; 0%R] [0%R; 1%R]) as (_ & Heq & _).
    destruct (Heq eq_refl) as (d & H1 & H2 & Hb).
    exists d. split; [exact H1|]. split; [exact H2|].
    apply Hb; simpl; lra.
Defined.

(** ** HellingerDistance over the reals: histograms *)

Section RealHistograms.

Implicit Types (xs ys : list R).

(** On entries that are not negative, the terms of the coefficient are the
    products of the square roots. *)
Lemma sqrt_products xs ys :
  Forall (fun x => (0 <= x)%R) xs -> Forall (fun y => (0 <= y)%R) ys ->
  map (fun p => sqrt (fst p * snd p)) (combine xs ys) =
  zip_with Rmult (map sqrt xs) (map sqrt ys).
Proof.
  intros Hxs. revert ys.
  induction Hxs as [|x xs Hx _ IH]; intros ys Hys; [reflexivity|].
  destruct Hys as [|y ys Hy Hys]; [reflexivity|]. simpl.
  rewrite (sqrt_mult x y Hx Hy), (IH ys Hys). reflexivity.
Qed.

Lemma sqrt_squares xs :
  Forall (fun x => (0 <= x)%R) xs ->
  zip_with Rmult (map sqrt xs) (map sqrt xs) = xs.
Proof.
  induction 1 as [|x xs Hx _ IH]; simpl; [reflexivity|].
  rewrite (sqrt_sqrt x Hx), IH. reflexivity.
Qed.

(** A normalized histogram sums to 1. *)
Lemma normalized_sum xs :
  (0 < num_sum xs)%R -> fold_left Rplus (normalized xs) 0%R = 1%R.
Proof.
  intros Hsum. unfold normalized. simpl in *.
  rewrite fold_left_Rplus_div. field. lra.
Qed.

(** Cauchy–Schwarz on the square roots: the coefficient of two histograms
    is at most 1. *)
Lemma Bhattacharyya_R_le_1 xs ys :
  Forall (fun x => (0 <= x)%R) xs -> Forall (fun y => (0 <= y)%R) ys ->
  (0 < num_sum xs)%R -> (0 < num_sum ys)%R ->
  (Bhattacharyya xs ys <= 1)%R.
Proof.
  intros Hxs Hys Hsx Hsy.
  pose proof (normalized_nonneg xs Hxs Hsx) as Hp.
  pose proof (normalized_nonneg ys Hys Hsy) as Hq.
  pose proof (Bhattacharyya_R_nonneg xs ys) as H0.
  assert (Hbc : Bhattacharyya xs ys =
                num_dot (map sqrt (normalized xs)) (map sqrt (normalized ys))).
  { unfold Bhattacharyya, seq_sum. simpl.
    rewrite (sqrt_products _ _ Hp Hq). reflexivity. }
  pose proof (cauchy_schwarz (map sqrt (normalized xs))
                (map sqrt (normalized ys))) as Hcs.
  rewrite <- Hbc in Hcs.
  assert (Hpp : num_dot (map sqrt (normalized xs))
                  (map sqrt (normalized xs)) = 1%R).
  { simpl. rewrite (sqrt_squares _ Hp). apply normalized_sum, Hsx. }
  assert (Hqq : num_dot (map sqrt (normalized ys))
                  (map sqrt (normalized ys)) = 1%R).
  { simpl. rewrite (sqrt_squares _ Hq). apply normalized_sum, Hsy. }
  rewrite Hpp, Hqq in Hcs. nra.
Qed.

End RealHistograms.

(** X8.  Over the reals, on two histograms of one length, entries not
    negative and sums positive: the coefficient BC lies in [0, 1], so that
    the root is taken of a number that is not negative; [HellingerDistance]
    returns the number d of [0, 1] with d² = 1 − BC, the same in both
    orders; and a histogram is at distance 0 from itself (in binary64 that
    distance can come out as NaN). *)
Theorem HellingerDistance_real (xs ys : list R) :
  length xs = length ys ->
  Forall (fun x => (0 <= x)%R) xs -> Forall (fun y => (0 <= y)%R) ys ->
  (0 < num_sum xs)%R -> (0 < num_sum ys)%R ->
  (0 <= Bhattacharyya xs ys <= 1)%R /\
  (exists d : R,
     HellingerDistance (VArr xs) (VArr ys) = Ok d /\
     HellingerDistance (VArr ys) (VArr xs) = Ok d /\
     (0 <= d <= 1)%R /\ (d * d = 1 - Bhattacharyya xs ys)%R) /\
  HellingerDistance (VArr xs) (VArr xs) = Ok 0%R.
Proof.
  intros Hlen Hxs Hys Hsx Hsy.
  pose proof (Bhattacharyya_R_nonneg xs ys) as H0.
  pose proof (Bhattacharyya_R_le_1 xs ys Hxs Hys Hsx Hsy) as H1.
  split; [lra|]. split.
  - exists (sqrt (1 - Bhattacharyya xs ys)).
    rewrite (HellingerDistance_spec xs ys) by lia.
    rewrite (HellingerDistance_spec ys xs) by lia.
    rewrite (Bhattacharyya_R_swap ys xs). simpl.
    split; [reflexivity|]. split; [reflexivity|]. split.
    + split; [apply sqrt_pos|].
      rewrite <- sqrt_1 at 2. apply sqrt_le_1_alt. lra.
    + apply sqrt_sqrt. lra.
  - rewrite (HellingerDistance_spec xs xs) by lia.
    rewrite (Bhattacharyya_R_self xs Hxs Hsx). simpl. f_equal.
    replace (1 - 1)%R with 0%R by lra. apply sqrt_0.
Qed.

Lemma HellingerDistance_real_witness :
  (0 <= Bhattacharyya [1%R; 3%R] [3%R; 1%R] <= 1)%R /\
  (exists d : R,
     HellingerDistance (VArr [1%R; 3%R]) (VArr [3%R; 1%R]) = Ok d /\
     HellingerDistance (VArr [3%R; 1%R]) (VArr [1%R; 3%R]) = Ok d /\
     (0 <= d <= 1)%R /\
     (d * d = 1 - Bhattacharyya [1%R; 3%R] [3%R; 1%R])%R) /\
  HellingerDistance (VArr [1%R; 3%R]) (VArr [1%R; 3%R]) = Ok 0%R.
Proof.
  apply (HellingerDistance_real [1%R; 3%R] [3%R; 1%R]).
  - reflexivity.
  - repeat apply List.Forall_cons; try apply List.Forall_nil; lra.
  - repeat apply List.Forall_cons; try apply List.Forall_nil; lra.
  - simpl. lra.
  - simpl. lra.
Defined.

(** ** Blank elements and the registry *)

Section BlankFacts.
Context {T : Type} `{Numeric T}.

Implicit Types (h : gmap loc (obj T)) (fs : list (feature T)).

Lemma last_registered_In fs (n : string) (g : feature T) :
  last_registered n fs = Some g -> In g fs /\ name g = n.
Proof.
  induction fs as [|ff rest IH]; simpl; [discriminate|].
  destruct (last_registered n rest) as [g'|].
  - intros [= <-]. destruct (IH eq_refl) as [Hin Hn]. auto.
  - destruct (decide (name ff = n)) as [Heq|]; [|discriminate].
    intros [= <-]. auto.
Qed.

Lemma last_registered_is_Some fs (ff : feature T) :
  In ff fs -> is_Some (last_registered (name ff) fs).
Proof.
  induction fs as [|g rest IH]; simpl; [tauto|].
  intros [-> | Hin].
  - destruct (last_registered (name ff) rest); [eauto|].
    destruct (decide (name ff = name ff)); [eauto | congruence].
  - destruct (IH Hin) as [g' ->]. eauto.
Qed.

(** The keys of a blank element are the registered names, no more and no
    fewer. *)
Lemma Element_loop_keys fs (n : string) :
  is_Some (Element_loop fs ∅ !! n) <-> exists ff, In ff fs /\ name ff = n.
Proof.
  rewrite Element_loop_lookup. split.
  - destruct (last_registered n fs) as [g|] eqn:Hg.
    + intros _. exists g. apply last_registered_In, Hg.
    + rewrite lookup_empty. intros [v Hv]. discriminate.
  - intros (ff & Hin & <-).
    destruct (last_registered_is_Some fs ff Hin) as [g ->]. eauto.
Qed.


Lemma feature_eta (f : feature T) :
  {| name := name f; proto := proto f; metric := metric f;
     remap := remap f; range := range f; weight := weight f |} = f.
Proof. destruct f. reflexivity. Qed.

Lemma AddFeatures_spec fs h (self l : loc) fs0 :
  registry_at h self l fs0 ->
  AddFeatures self fs h = Ok (tt, <[l := PyList (fs0 ++ fs)]> h).
Proof.
  revert h fs0. induction fs as [|f rest IH]; intros h fs0 Hreg.
  - simpl. unfold ret. rewrite app_nil_r, insert_id; [reflexivity|].
    apply Hreg.
  - simpl. unfold bindM at 1, AddFeature_entry.
    rewrite (AddFeature_spec h self l fs0 _ _ _ _ _ _ Hreg), feature_eta.
    simpl.
    destruct Hreg as ((attrs & Hs & Hl) & Hfs).
    rewrite (IH _ (fs0 ++ [f])).
    + rewrite insert_insert_eq, <- app_assoc. reflexivity.
    + split; [|apply lookup_insert_eq]. exists attrs. split; [|exact Hl].
      rewrite lookup_insert_ne by (intros <-; congruence). exact Hs.
Qed.

End BlankFacts.

(** X14.  The dict that [Element] returns has the registered names as its
    keys, no more and no fewer, whether names repeat in the registry or
    not. *)
Theorem Element_keys_are_names {T : Type} `{Numeric T}
    (h : gmap loc (obj T)) (self : loc) (fs : list (feature T)) :
  features_of h self = Some fs ->
  exists e h' d,
    Element self h = Ok (e, h') /\ h' !! e = Some (Dict d) /\
    forall n, is_Some (d !! n) <-> exists ff, In ff fs /\ name ff = n.
Proof.
  intros Hf. eexists _, _, _. split; [apply Element_spec, Hf|].
  split; [apply lookup_insert_eq|]. apply Element_loop_keys.
Qed.

Lemma Element_keys_are_names_witness :
  exists e h' d,
    Element 2%positive Examples.age_twice_store = Ok (e, h') /\
    h' !! e = Some (Dict d) /\
    is_Some (d !! "age") /\ ~ is_Some (d !! "income").
Proof.
  destruct (Element_keys_are_names Examples.age_twice_store 2%positive
              [Examples.age_first; Examples.age_second])
    as (e & h' & d & He & Hd & Hkeys).
  - vm_compute. reflexivity.
  - exists e, h', d. split; [exact He|]. split; [exact Hd|]. split.
    + apply Hkeys. exists Examples.age_first. split; [left|]; reflexivity.
    + intros Hk. apply Hkeys in Hk as (ff & [<- | [<- | []]] & Hn);
        discriminate.
Defined.



(** X16.  Registration order is call order: in every store a program
    reaches, a new instance on which the entries of a list are registered
    in turn holds those entries, in that order, as its registry, and the
    registry of every other object is as it was. *)
Theorem AddFeature_keeps_call_order {T : Type} `{Numeric T}
    (h : gmap loc (obj T)) (fs : list (feature T)) :
  reachable h ->
  exists s h1 h2,
    FeatureSpace h = Ok (s, h1) /\
    AddFeatures s fs h1 = Ok (tt, h2) /\
    features_of h2 s = Some fs /\
    forall s', s' <> s -> features_of h2 s' = features_of h s'.
Proof.
  intros Hreach.
  pose proof (reachable_registries_separate h Hreach) as Hinv.
  destruct (FeatureSpace_spec h) as (s & l & Hs & Hl & Hsl & Hnew).
  set (h1 := <[s := Instance {[ "features" := l ]}]>
               (<[l := PyList []]> h)) in *.
  assert (Hinv1 : registries_separate h1).
  { eapply registries_separate_FeatureSpace; eassumption. }
  assert (Hs1 : h1 !! s = Some (Instance {[ "features" := l ]}))
    by apply lookup_insert_eq.
  assert (Hl1 : h1 !! l = Some (PyList [])).
  { unfold h1. rewrite lookup_insert_ne by auto. apply lookup_insert_eq. }
  assert (Hreg : registry_at h1 s l []).
  { split; [|exact Hl1]. eexists. split; [exact Hs1|].
    rewrite lookup_singleton_eq. reflexivity. }
  exists s, h1, (<[l := PyList ([] ++ fs)]> h1).
  split; [exact Hnew|]. split; [apply AddFeatures_spec, Hreg|]. split.
  - apply features_of_Some. exists l. split; [|apply lookup_insert_eq].
    eexists. split.
    + rewrite lookup_insert_ne by auto. exact Hs1.
    + rewrite lookup_singleton_eq. reflexivity.
  - intros s' Hne.
    rewrite (features_of_other h1 s _ l [] _ s' Hinv1 Hs1
               (lookup_singleton_eq _ _) Hl1 Hne).
    unfold h1. rewrite (features_of_FeatureSpace h s l s' Hinv Hs Hl Hsl).
    destruct (decide (s' = s)); congruence.
Qed.

Lemma AddFeature_keeps_call_order_witness :
  exists s h1 h2,
    FeatureSpace module_store = Ok (s, h1) /\
    AddFeatures s Examples.census h1 = Ok (tt, h2) /\
    features_of h2 s = Some Examples.census.
Proof.
  destruct (AddFeature_keeps_call_order module_store Examples.census)
    as (s & h1 & h2 & Hnew & Hadd & Hreg & _).
  - apply reachable_module.
  - exists s, h1, h2. auto.
Defined.

(** ** The exception [Difference] raises *)

(** X17.  On a non-empty registry [Difference] raises an exception exactly
    when some entry fails after every entry before it has evaluated, and the
    exception is that entry's: the first failure in registration order
    decides, and the entries after it are never consulted. *)
Theorem Difference_first_failure {T : Type} `{Numeric T}
    (fs : list (feature T)) (aa bb : gmap string (val T (list T)))
    (get_metrics : bool) (e : exn) :
  fs <> [] ->
  Difference fs aa bb get_metrics = Raise e <->
  exists fs1 ff fs2 ms1,
    fs = fs1 ++ ff :: fs2 /\ Forall2 (per_feature aa bb) fs1 ms1 /\
    entry aa bb ff = Raise e.
Proof.
  intros Hne. split.
  - intros Hd. apply Difference_Raise_inv in Hd; [|exact Hne].
    apply (proj1 (Difference_loop_Raise fs aa bb [] [] e) Hd).
  - intros Hsplit.
    apply (proj2 (Difference_loop_Raise fs aa bb [] [] e)) in Hsplit.
    unfold Difference. rewrite Hsplit. reflexivity.
Qed.

Lemma Difference_first_failure_witness :
  entry Examples.in_X Examples.in_Y
    (Examples.entry_of "age" ManhattanDistance None 1 1)
    = Raise (KeyError "age") /\
  Difference Examples.town_age Examples.in_X Examples.in_Y false
    = Raise TypeError.
Proof.
  split; [vm_compute; reflexivity|].
  apply (Difference_first_failure Examples.town_age Examples.in_X
           Examples.in_Y false TypeError); [discriminate|].
  exists [], (Examples.entry_of "town" ManhattanDistance None 1 1),
    [Examples.entry_of "age" ManhattanDistance None 1 1], [].
  split; [reflexivity|]. split; [constructor|]. vm_compute. reflexivity.
Defined.
